(** * Delivery-guarantee coordinator of the Tax And Taxes email server

    A shallow embedding of the retry / cleanup machinery of [index.js]:
    the retry ledger [pendingEmailRetries], [sendEmailsWithRetry],
    [cleanupOldRetries], [scheduleFileCleanup] and [cleanupFiles], together
    with the two request handlers that call them.

    The Node event loop is modelled by explicit state passing: one
    [State] holds the ledger, the table of armed timers, the wall clock,
    the upload directory, the calls of [sendEmailsWithRetry] that are
    suspended at [await transporter.sendMail], and the console lines the
    properties talk about.  Every callback turn of the program is one
    [step].

    Conventions.  A turn takes no time: the clock moves only by [Tick].
    A timer may fire at any time from its due time on.  A call of
    [sendEmailsWithRetry] is split at its awaits: the part before them
    ([sendEmailsWithRetry_start]) parks the call, the part after them
    ([sendEmailsWithRetry_settle]) runs in a later turn once the transport
    has answered, so other turns can come in between.  [cleanupFiles] is
    taken to run to completion in the turn that calls it.  File lists are
    lists of well-formed file objects.  The iteration order of the ledger
    is not modelled; no property here depends on it. *)

From Stdlib Require Import ZArith Lia Ascii.
From stdpp Require Import gmap strings list fin_maps pretty.

Local Open Scope Z_scope.

(** ** Data *)

(** A multer file object; only the fields the coordinator reads. *)
Record File := mkFile {
  fieldname : string;
  originalname : string;
  path : string;
  bytes : Z   (* [size]; renamed, the name is taken by the size of a set *)
}.

(** [paymentInfo] as built by the submit handler (index.js:773). *)
Record PaymentInfo := mkPaymentInfo {
  paymentId : string;
  orderId : string;
  amount : string;
  transactionId : string;
  orderStatus : string
}.

(** [req.body]: a JS object used as a string-keyed map. *)
Abbreviation FormData := (gmap string string).

(** ** Attachment storage

    [existing] is the set of paths for which [fs.existsSync] answers true.
    [undeletable] is the set of paths whose [unlink] is rejected by the
    operating system (EPERM, EBUSY, EISDIR, ...): the [catch] of
    [cleanupFiles] exists for them. *)
Record Storage := mkStorage {
  existing : gset string;
  undeletable : gset string
}.

Definition existsSync (s : Storage) (p : string) : bool :=
  bool_decide (p ∈ existing s).

(** [fs.promises.unlink]: the new storage, or the error message. *)
Definition unlink (s : Storage) (p : string) : Storage + string :=
  if existsSync s p then
    if bool_decide (p ∈ undeletable s) then inr "EPERM"%string
    else inl (mkStorage (existing s ∖ {[p]}) (undeletable s))
  else inr "ENOENT"%string.

(** Outcome of an async function: resolved with a value or rejected. *)
Inductive Settled (A : Type) :=
| Resolved (a : A)
| Rejected (err : string).
Arguments Resolved {A} a.
Arguments Rejected {A} err.

(** The counters of [cleanupFiles] (index.js:273-274). *)
Record CleanupCounts := mkCounts {
  deletedCount : nat;
  errorCount : nat
}.

(** The body of the [try] block of [cleanupFiles] for one file
    (index.js:279-285): [inl] is normal completion, with a flag telling
    whether the file was unlinked, [inr] is the exception thrown. *)
Definition cleanupFiles_try (s : Storage) (file : File) : (Storage * bool) + string :=
  if existsSync s (path file) then
    match unlink s (path file) with
    | inl s' => inl (s', true)
    | inr err => inr err
    end
  else inl (s, false).

(** The [for ... of] loop with its [try]/[catch] (index.js:276-290). *)
Fixpoint cleanupFiles_loop (files : list File) (s : Storage) (c : CleanupCounts)
  : Storage * CleanupCounts :=
  match files with
  | [] => (s, c)
  | file :: rest =>
      match cleanupFiles_try s file with
      | inl (s', true) =>
          cleanupFiles_loop rest s' (mkCounts (S (deletedCount c)) (errorCount c))
      | inl (s', false) => cleanupFiles_loop rest s' c
      | inr _ => cleanupFiles_loop rest s (mkCounts (deletedCount c) (S (errorCount c)))
      end
  end.

(** [cleanupFiles(files, clientId)] (index.js:270): the storage it leaves
    and how its promise settles.  [clientId] is only logged. *)
Definition cleanupFiles (files : list File) (clientId : string) (s : Storage)
  : Storage * Settled CleanupCounts :=
  let '(s', c) := cleanupFiles_loop files s (mkCounts 0 0) in
  (s', Resolved c).

(** The error count a call reports, if it resolves. *)
Definition errorsOf (r : Settled CleanupCounts) : option nat :=
  match r with
  | Resolved c => Some (errorCount c)
  | Rejected _ => None
  end.

(** A listed file that is on storage and cannot be deleted: the files
    [cleanupFiles] counts as errors. *)
Definition stuck (s : Storage) (f : File) : Prop :=
  path f ∈ existing s ∧ path f ∈ undeletable s.

Global Instance stuck_dec s f : Decision (stuck s f).
Proof. unfold stuck. apply _. Defined.

(** ** Retry configuration (index.js:110-114) *)

Record RetryConfig := mkRetryConfig {
  maxRetries : Z;
  retryDelays : list Z;
  maxAge : Z
}.

Definition EMAIL_RETRY_CONFIG : RetryConfig :=
  mkRetryConfig 5 [30000; 60000; 120000; 300000; 600000] (30 * 60 * 1000).

(** Period of [setInterval(cleanupOldRetries, ...)] (index.js:230). *)
Definition sweepInterval : Z := 5 * 60 * 1000.

(** [arr[i]] on a JS array of numbers: [undefined] out of range. *)
Definition js_index (arr : list Z) (i : Z) : option Z :=
  if bool_decide (0 ≤ i) then arr !! Z.to_nat i else None.

(** Truthiness of a number-or-undefined. *)
Definition truthy (v : option Z) : bool :=
  match v with
  | Some n => negb (n =? 0)
  | None => false
  end.

(** [a || b]. *)
Definition js_or (a b : option Z) : option Z := if truthy a then a else b.

(** The delay expression of index.js:154, and whether its right operand
    (the clamp to the last table element) was the one that produced it. *)
Definition retryDelayLookup (cfg : RetryConfig) (retryCount : Z) : option Z * bool :=
  let first := js_index (retryDelays cfg) retryCount in
  let last := js_index (retryDelays cfg) (Z.of_nat (length (retryDelays cfg)) - 1) in
  (js_or first last, negb (truthy first)).

(** The delay [setTimeout] really uses: Node coerces a missing or
    smaller-than-one delay to 1 ms. *)
Definition timerDelay (d : option Z) : Z :=
  match d with
  | Some n => if bool_decide (1 ≤ n) then n else 1
  | None => 1
  end.

(** ** Calls, ledger entries, timers *)

(** The argument tuple of [sendEmailsWithRetry] (index.js:117). *)
Record Call := mkCall {
  c_formData : FormData;
  c_files : list File;
  c_clientId : string;
  c_paymentInfo : option PaymentInfo;
  c_retryCount : Z
}.

(** Who awaits the call: the submit handler (index.js:804), a retry timer
    (index.js:172) or the manual retry handler (index.js:1038). *)
Inductive Origin := FromSubmit | FromTimer | FromManual.

(** An entry of [pendingEmailRetries] (index.js:159-167). *)
Record RetryData := mkRetryData {
  formData : FormData;
  files : list File;
  clientId : string;
  paymentInfo : option PaymentInfo;
  retryCount : Z;
  createdAt : Z;
  timeoutId : option nat
}.

(** The closures handed to [setTimeout]. *)
Inductive Callback :=
| RetryCallback (c : Call)                               (* index.js:170 *)
| CleanupCheckCallback (fs : list File) (cid : string)   (* index.js:256 *)
| DeferredCleanupCallback (fs : list File) (cid : string)(* index.js:262 *).

(** Console lines the properties are about. *)
Inductive Event :=
| EvAttempt (cid : string) (retryCount : Z) (at_ : Z)
    (* index.js:119, "Sending emails ... Attempt" *)
| EvRetryScheduled (cid : string) (nextRetryCount : Z) (delay : Z) (clamped : bool)
    (* index.js:156, "Scheduling retry" *)
| EvCleanupFiles (cid : string) (fs : list File) (entryPresent : bool) (r : Settled CleanupCounts)
    (* index.js:271, "Starting file cleanup"; [entryPresent] is whether the
       ledger held an entry for [cid] at the moment of the call *).

(** What [sendEmailsWithRetry] resolves to (index.js:146, 177, 194). *)
Inductive EmailResult :=
| ResSuccess
| ResWillRetry (retryCount : Z) (nextRetryIn : option Z)
| ResFailed (error : string).

(** How the two [transporter.sendMail] calls of one attempt end. *)
Inductive Stage := AdminMail | UserMail.
Inductive SendOutcome :=
| Sent
| SendFailed (stage : Stage) (message : string).

Record State := mkState {
  pendingEmailRetries : gmap string RetryData;
  timers : gmap nat (Z * Callback);   (* armed timers: id -> (due time, closure) *)
  nextTimerId : nat;
  Date_now : Z;
  uploads : Storage;
  inflight : list (Call * Origin);    (* calls suspended at an await *)
  console : list Event                (* newest first *)
}.

Definition initialState (boot : Z) (disk : Storage) : State :=
  mkState ∅ ∅ 0 boot disk [] [].

Definition set_ledger (m : gmap string RetryData) (st : State) : State :=
  mkState m (timers st) (nextTimerId st) (Date_now st) (uploads st) (inflight st) (console st).

Definition set_timers (t : gmap nat (Z * Callback)) (st : State) : State :=
  mkState (pendingEmailRetries st) t (nextTimerId st) (Date_now st) (uploads st)
          (inflight st) (console st).

Definition set_inflight (l : list (Call * Origin)) (st : State) : State :=
  mkState (pendingEmailRetries st) (timers st) (nextTimerId st) (Date_now st) (uploads st)
          l (console st).

Definition set_uploads (s : Storage) (st : State) : State :=
  mkState (pendingEmailRetries st) (timers st) (nextTimerId st) (Date_now st) s
          (inflight st) (console st).

Definition log (e : Event) (st : State) : State :=
  mkState (pendingEmailRetries st) (timers st) (nextTimerId st) (Date_now st) (uploads st)
          (inflight st) (e :: console st).

(** [setTimeout(cb, delay)]: arms a fresh timer and returns its handle. *)
Definition setTimeout (cb : Callback) (delay : Z) (st : State) : nat * State :=
  let id := nextTimerId st in
  (id, mkState (pendingEmailRetries st) (<[id := (Date_now st + delay, cb)]> (timers st))
               (S id) (Date_now st) (uploads st) (inflight st) (console st)).

(** [clearTimeout(id)]. *)
Definition clearTimeout (id : nat) (st : State) : State :=
  set_timers (delete id (timers st)) st.

(** [if (retryData.timeoutId) clearTimeout(retryData.timeoutId)]. *)
Definition clearTimeoutOf (rd : RetryData) (st : State) : State :=
  match timeoutId rd with
  | Some id => clearTimeout id st
  | None => st
  end.

(** A call of [cleanupFiles] from the coordinator; the promise is not
    awaited by any caller. *)
Definition call_cleanupFiles (fs : list File) (cid : string) (st : State) : State :=
  let '(disk, r) := cleanupFiles fs cid (uploads st) in
  log (EvCleanupFiles cid fs (bool_decide (is_Some (pendingEmailRetries st !! cid))) r)
      (set_uploads disk st).

(** [files && files.length > 0]. *)
Definition nonEmpty (fs : list File) : bool :=
  match fs with [] => false | _ :: _ => true end.

(** ** The coordinator

    [production] stands for [process.env.NODE_ENV === 'production']. *)

(** First delay of [scheduleFileCleanup] (index.js:250-252). *)
Definition cleanupDelay (production : bool) : Z :=
  if production then 5 * 60 * 1000 else 30 * 60 * 1000.

(** Deferral of [scheduleFileCleanup] (index.js:261). *)
Definition cleanupRetryDelay (production : bool) : Z :=
  if production then 2 * 60 * 1000 else 10 * 60 * 1000.

(** [scheduleFileCleanup(files, clientId)] (index.js:248-267): arms the
    outer timer. *)
Definition scheduleFileCleanup (production : bool) (fs : list File) (cid : string)
    (st : State) : State :=
  snd (setTimeout (CleanupCheckCallback fs cid) (cleanupDelay production) st).

(** The outer timer's closure (index.js:256-266). *)
Definition cleanupCheck (production : bool) (fs : list File) (cid : string)
    (st : State) : State :=
  if bool_decide (is_Some (pendingEmailRetries st !! cid)) then
    snd (setTimeout (DeferredCleanupCallback fs cid) (cleanupRetryDelay production) st)
  else call_cleanupFiles fs cid st.

(** The inner timer's closure (index.js:262). *)
Definition deferredCleanup (fs : list File) (cid : string) (st : State) : State :=
  call_cleanupFiles fs cid st.

(** [sendEmailsWithRetry] up to its first [await] (index.js:118-123): it
    logs the attempt and is parked until the transport answers. *)
Definition sendEmailsWithRetry_start (c : Call) (o : Origin) (st : State) : State :=
  set_inflight ((c, o) :: inflight st)
    (log (EvAttempt (c_clientId c) (c_retryCount c) (Date_now st)) st).

(** [sendEmailsWithRetry] from the point where the transport has answered
    (index.js:129-195). *)
Definition sendEmailsWithRetry_settle (production : bool) (c : Call) (o : SendOutcome)
    (st : State) : State * EmailResult :=
  match o with
  | Sent =>
      match pendingEmailRetries st !! c_clientId c with
      | Some retryData =>
          let st1 := clearTimeoutOf retryData st in
          let st2 := set_ledger (delete (c_clientId c) (pendingEmailRetries st1)) st1 in
          let st3 := if nonEmpty (c_files c)
                     then scheduleFileCleanup production (c_files c) (c_clientId c) st2
                     else st2 in
          (st3, ResSuccess)
      | None => (st, ResSuccess)
      end
  | SendFailed _ message =>
      if bool_decide (is_Some (c_paymentInfo c)
                      ∧ c_retryCount c < maxRetries EMAIL_RETRY_CONFIG) then
        let nextRetryCount := c_retryCount c + 1 in
        let '(d, clamped) := retryDelayLookup EMAIL_RETRY_CONFIG (c_retryCount c) in
        let delay := timerDelay d in
        let st0 := log (EvRetryScheduled (c_clientId c) nextRetryCount delay clamped) st in
        let '(id, st1) :=
          setTimeout (RetryCallback (mkCall (c_formData c) (c_files c) (c_clientId c)
                                            (c_paymentInfo c) nextRetryCount))
                     delay st0 in
        let retryData :=
          mkRetryData (c_formData c) (c_files c) (c_clientId c) (c_paymentInfo c)
                      nextRetryCount (Date_now st) (Some id) in
        (set_ledger (<[c_clientId c := retryData]> (pendingEmailRetries st1)) st1,
         ResWillRetry nextRetryCount d)
      else
        let st1 :=
          if bool_decide (is_Some (c_paymentInfo c)) && nonEmpty (c_files c)
          then call_cleanupFiles (c_files c) (c_clientId c) st
          else st in
        (st1, ResFailed message)
  end.

(** [now - retryData.createdAt > EMAIL_RETRY_CONFIG.maxAge] (index.js:204). *)
Definition expired (now : Z) (rd : RetryData) : bool :=
  bool_decide (now - createdAt rd > maxAge EMAIL_RETRY_CONFIG).

(** First loop of [cleanupOldRetries] (index.js:203-207). *)
Definition expiredEntries (now : Z) (m : gmap string RetryData) : list string :=
  (filter (λ kv, expired now kv.2 = true) (map_to_list m)).*1.

(** Body of the [forEach] of [cleanupOldRetries] (index.js:209-222).  A
    missing entry would make [retryData.timeoutId] throw; the ids come
    from the ledger itself, so that branch is not taken. *)
Definition purgeEntry (st : State) (cid : string) : State :=
  match pendingEmailRetries st !! cid with
  | Some retryData =>
      let st1 := clearTimeoutOf retryData st in
      let st2 := if nonEmpty (files retryData)
                 then call_cleanupFiles (files retryData) cid st1
                 else st1 in
      set_ledger (delete cid (pendingEmailRetries st2)) st2
  | None => st
  end.

(** [cleanupOldRetries] (index.js:199-227). *)
Definition cleanupOldRetries (st : State) : State :=
  foldl purgeEntry st (expiredEntries (Date_now st) (pendingEmailRetries st)).

(** The [catch] of the submit handler (index.js:840-853): every uploaded
    file is unlinked directly, errors are only logged. *)
Definition unlinkAll (fs : list File) (s : Storage) : Storage :=
  foldl (λ acc f, match unlink acc (path f) with inl s' => s' | inr _ => acc end) s fs.

(** The submit handler after [await sendEmailsWithRetry] (index.js:806-834). *)
Definition submitContinuation (production : bool) (c : Call) (r : EmailResult)
    (st : State) : State :=
  match r with
  | ResSuccess =>
      if nonEmpty (c_files c)
      then scheduleFileCleanup production (c_files c) (c_clientId c) st
      else st
  | ResWillRetry _ _ =>
      if bool_decide (is_Some (c_paymentInfo c)) then st
      else set_uploads (unlinkAll (c_files c) (uploads st)) st
  | ResFailed _ => set_uploads (unlinkAll (c_files c) (uploads st)) st
  end.

(** What the awaiting caller does with the result. *)
Definition continuation (production : bool) (o : Origin) (c : Call) (r : EmailResult)
    (st : State) : State :=
  match o with
  | FromSubmit => submitContinuation production c r st
  | FromTimer => st
  | FromManual => st
  end.

(** Running a fired timer's closure. *)
Definition runCallback (production : bool) (cb : Callback) (st : State) : State :=
  match cb with
  | RetryCallback c => sendEmailsWithRetry_start c FromTimer st
  | CleanupCheckCallback fs cid => cleanupCheck production fs cid st
  | DeferredCleanupCallback fs cid => deferredCleanup fs cid st
  end.

(** The manual retry handler up to its [await] (index.js:1014-1044): no
    effect for an empty or unknown id (responses 400 and 404). *)
Definition manualRetry (cid : string) (st : State) : State :=
  if bool_decide (cid = ""%string) then st
  else match pendingEmailRetries st !! cid with
       | None => st
       | Some retryData =>
           sendEmailsWithRetry_start
             (mkCall (formData retryData) (files retryData) (clientId retryData)
                     (paymentInfo retryData) (retryCount retryData))
             FromManual (clearTimeoutOf retryData st)
       end.

(** The test endpoint (index.js:1062-1090): a one second timer around
    [cleanupFiles]; the route does not exist in production. *)
Definition testCleanup (production : bool) (fs : list File) (cid : string)
    (st : State) : State :=
  if production then st
  else if nonEmpty fs
       then snd (setTimeout (DeferredCleanupCallback fs cid) 1000 st)
       else st.

(** ** Turns of the event loop *)

Inductive Action :=
| Tick (dt : Z)
    (* the wall clock advances *)
| Submit (fd : FormData) (fs : list File) (cid : string) (pi : option PaymentInfo)
    (* POST /api/contact, validated: calls sendEmailsWithRetry (index.js:804) *)
| SendDone (i : nat) (o : SendOutcome)
    (* the transport answers the i-th suspended call *)
| TimerFire (id : nat)
    (* an armed timer that is due fires *)
| Sweep
    (* a tick of setInterval(cleanupOldRetries) *)
| ManualRetry (cid : string)
    (* POST /api/retry-email *)
| TestCleanup (fs : list File) (cid : string)
    (* POST /api/test-cleanup, registered outside production only *).

Definition step (production : bool) (a : Action) (st : State) : option State :=
  match a with
  | Tick dt =>
      if bool_decide (0 ≤ dt)
      then Some (mkState (pendingEmailRetries st) (timers st) (nextTimerId st)
                         (Date_now st + dt) (uploads st) (inflight st) (console st))
      else None
  | Submit fd fs cid pi =>
      Some (sendEmailsWithRetry_start (mkCall fd fs cid pi 0) FromSubmit st)
  | SendDone i o =>
      match inflight st !! i with
      | Some (c, origin) =>
          let st1 := set_inflight (delete i (inflight st)) st in
          let '(st2, r) := sendEmailsWithRetry_settle production c o st1 in
          Some (continuation production origin c r st2)
      | None => None
      end
  | TimerFire id =>
      match timers st !! id with
      | Some (due, cb) =>
          if bool_decide (due ≤ Date_now st)
          then Some (runCallback production cb (clearTimeout id st))
          else None
      | None => None
      end
  | Sweep => Some (cleanupOldRetries st)
  | ManualRetry cid => Some (manualRetry cid st)
  | TestCleanup fs cid => Some (testCleanup production fs cid st)
  end.

(** A schedule of turns, left to right. *)
Fixpoint run (production : bool) (acts : list Action) (st : State) : option State :=
  match acts with
  | [] => Some st
  | a :: rest =>
      match step production a st with
      | Some st' => run production rest st'
      | None => None
      end
  end.

(** States the server can be in. *)
Inductive reachable (production : bool) : State → Prop :=
| reachable_boot boot disk : reachable production (initialState boot disk)
| reachable_step st a st' :
    reachable production st → step production a st = Some st' →
    reachable production st'.

(** ** Observations *)

(** Attempts for [cid] on a console: retry count and time of each. *)
Definition attemptsOf (cid : string) (evs : list Event) : list (Z * Z) :=
  omap (λ e, match e with
             | EvAttempt c rc t => if bool_decide (c = cid) then Some (rc, t) else None
             | _ => None
             end) evs.

(** Delays of the retries scheduled for [cid] on a console. *)
Definition delaysOf (cid : string) (evs : list Event) : list Z :=
  omap (λ e, match e with
             | EvRetryScheduled c _ d _ => if bool_decide (c = cid) then Some d else None
             | _ => None
             end) evs.

(** Calls of [cleanupFiles] for [cid] on a console: the ledger flag of each. *)
Definition cleanupsOf (cid : string) (evs : list Event) : list bool :=
  omap (λ e, match e with
             | EvCleanupFiles c _ b _ => if bool_decide (c = cid) then Some b else None
             | _ => None
             end) evs.

(** A call of [cleanupFiles] made while the ledger held the identity. *)
Definition cleanedWhilePending (e : Event) : bool :=
  match e with
  | EvCleanupFiles _ _ true _ => true
  | _ => false
  end.

(** A retry whose delay came from the clamp of index.js:154. *)
Definition clampUsed (e : Event) : bool :=
  match e with
  | EvRetryScheduled _ _ _ true => true
  | _ => false
  end.

Definition isRetryFor (cid : string) (cb : Callback) : bool :=
  match cb with
  | RetryCallback c => bool_decide (c_clientId c = cid)
  | _ => false
  end.

(** Handles of the armed retry timers of [cid]. *)
Definition armedRetryTimers (cid : string) (st : State) : list nat :=
  (filter (λ kv, isRetryFor cid kv.2.2 = true) (map_to_list (timers st))).*1.

(** Times at which a punctual sweeper started at [boot] runs. *)
Definition sweepTime (boot : Z) (k : nat) : Z := boot + (Z.of_nat k + 1) * sweepInterval.

(** ** The automatic loop with the transport down

    One round: the timer held by the ledger entry of [cid] fires when it
    is due and the attempt it starts fails. *)
Definition failingRound (production : bool) (cid : string) (stage : Stage)
    (message : string) (st : State) : option State :=
  match pendingEmailRetries st !! cid with
  | Some rd =>
      match timeoutId rd with
      | Some id =>
          match timers st !! id with
          | Some (due, _) =>
              run production
                  [Tick (Z.max 0 (due - Date_now st)); TimerFire id;
                   SendDone 0 (SendFailed stage message)] st
          | None => None
          end
      | None => None
      end
  | None => None
  end.

(** Rounds until no timer is left for [cid], at most [fuel] of them. *)
Fixpoint failingLoop (production : bool) (cid : string) (stage : Stage)
    (message : string) (fuel : nat) (st : State) : State :=
  match fuel with
  | O => st
  | S n =>
      match failingRound production cid stage message st with
      | Some st' => failingLoop production cid stage message n st'
      | None => st
      end
  end.

(** The ledger entry of the call's identity waits for exactly this call:
    it carries the call's data and retry count, and the timer it holds is
    armed with the call and due at [due]. *)
Definition awaitsRetry (st : State) (c : Call) (due : Z) : Prop :=
  ∃ t n,
    pendingEmailRetries st !! c_clientId c
      = Some (mkRetryData (c_formData c) (c_files c) (c_clientId c) (c_paymentInfo c)
                          (c_retryCount c) t (Some n)) ∧
    timers st !! n = Some (due, RetryCallback c) ∧
    Date_now st ≤ due.

(** A paid submission none of whose attempts gets through. *)
Definition paidSubmissionTransportDown (production : bool) (fd : FormData)
    (fs : list File) (cid : string) (pi : PaymentInfo) (stage : Stage)
    (message : string) (fuel : nat) (st : State) : option State :=
  match run production [Submit fd fs cid (Some pi); SendDone 0 (SendFailed stage message)] st with
  | Some st1 => Some (failingLoop production cid stage message fuel st1)
  | None => None
  end.

(** ** Invariant of the retry counts *)

Record countsInRange (st : State) : Prop := mkCountsInRange {
  entries_in_range :
    ∀ cid rd, pendingEmailRetries st !! cid = Some rd → 1 ≤ retryCount rd ≤ 5;
  timers_in_range :
    ∀ id due c, timers st !! id = Some (due, RetryCallback c) → 1 ≤ c_retryCount c ≤ 5;
  inflight_in_range :
    ∀ c o, (c, o) ∈ inflight st → 0 ≤ c_retryCount c ≤ 5;
  console_unclamped :
    ∀ e, e ∈ console st → clampUsed e = false
}.

(** ** Sample data for the executable scenarios *)

Definition aadhar : File :=
  mkFile "aadharCard" "aadhar.pdf" "uploads/aadharCard-1700000000000-1.pdf" 2048.

Definition sampleForm : FormData :=
  {[ "name"%string := "Asha"%string; "email"%string := "asha@example.com"%string ]}.

Definition samplePayment : PaymentInfo :=
  mkPaymentInfo "pay_29QQoUBi66xm2f" "ORDER_TT25_1700000000000_042" "799"
                "pay_29QQoUBi66xm2f" "PAID".

Definition sampleId : string := "TT250000000042".

Definition sampleDisk : Storage := mkStorage {[ path aadhar ]} ∅.

(** The same upload directory with the file protected against deletion. *)
Definition lockedDisk : Storage := mkStorage {[ path aadhar ]} {[ path aadhar ]}.

Definition transportDown : SendOutcome := SendFailed AdminMail "ECONNREFUSED".

(** A paid submission whose first attempt fails. *)
Definition firstFailure : list Action :=
  [Submit sampleForm [aadhar] sampleId (Some samplePayment); SendDone 0 transportDown].

(** The first retry is sent at 30 s and the transport never answers it,
    while the sweeper runs punctually every five minutes from boot; the
    schedule ends with the sweep at 30 min sharp. *)
Definition hangingTransport : list Action :=
  firstFailure ++
  [Tick 30000; TimerFire 0;
   Tick 270000; Sweep; Tick 300000; Sweep; Tick 300000; Sweep;
   Tick 300000; Sweep; Tick 300000; Sweep; Tick 300000; Sweep].

(** ... followed by the sweep at 35 min. *)
Definition hangingTransportSwept : list Action :=
  hangingTransport ++ [Tick 300000; Sweep].

(** The transport stays down through the whole automatic loop; every timer
    fires when it is due. *)
Definition transportStaysDown : list Action :=
  firstFailure ++
  [Tick 30000; TimerFire 0; SendDone 0 transportDown;
   Tick 60000; TimerFire 1; SendDone 0 transportDown;
   Tick 120000; TimerFire 2; SendDone 0 transportDown;
   Tick 300000; TimerFire 3; SendDone 0 transportDown;
   Tick 600000; TimerFire 4; SendDone 0 transportDown].

(** Two manual retries overlap; both attempts fail. *)
Definition overlappingManualRetries : list Action :=
  firstFailure ++
  [Tick 5000; ManualRetry sampleId; ManualRetry sampleId;
   SendDone 0 transportDown; SendDone 0 transportDown].

(** Two manual retries overlap; the first attempt to settle succeeds, the
    other fails and its retries keep failing while the cleanup timers of
    the success run out (production profile). *)
Definition cleanupRacesRetry : list Action :=
  firstFailure ++
  [Tick 5000; ManualRetry sampleId; ManualRetry sampleId;
   SendDone 0 Sent;            (* entry removed, cleanup armed: timer 1, due in 5 min *)
   SendDone 0 transportDown;   (* entry back with count 2: timer 2, due in 60 s *)
   Tick 60000; TimerFire 2; SendDone 0 transportDown;    (* count 3, timer 3 *)
   Tick 120000; TimerFire 3; SendDone 0 transportDown;   (* count 4, timer 4: 5 min *)
   Tick 120000; TimerFire 1;   (* cleanup check: entry present, deferred as timer 5 *)
   Tick 120000; TimerFire 5].  (* deferred cleanup, entry still present *)

(** Two manual retries overlap and the first attempt to settle succeeds;
    the second one is still suspended. *)
Definition overlapFirstSucceeds : list Action :=
  firstFailure ++
  [Tick 5000; ManualRetry sampleId; ManualRetry sampleId; SendDone 0 Sent].

(** The automatic retry of the first failure is under way. *)
Definition secondAttemptInFlight : list Action :=
  firstFailure ++ [Tick 30000; TimerFire 0].

(** The state a schedule leads to from a freshly booted server whose
    upload directory holds the sample file (the boot state itself if the
    schedule cannot run). *)
Definition stateAfter (production : bool) (acts : list Action) : State :=
  default (initialState 0 sampleDisk) (run production acts (initialState 0 sampleDisk)).

(** ** Intake of the submit handler (index.js:737-780) *)

(** Truthiness of a form field: missing or empty is falsy. *)
Definition jsTruthy (v : option string) : bool :=
  match v with
  | Some EmptyString => false
  | Some (String _ _) => true
  | None => false
  end.

(** [a || b] on a form field with a string fallback. *)
Definition fieldOr (a : option string) (b : string) : string :=
  match a with
  | Some (String c s) => String c s
  | _ => b
  end.

(** [!formData.name || !formData.email || !formData.phone ||
    !formData.service] negated (index.js:746). *)
Definition requiredFieldsPresent (fd : FormData) : bool :=
  jsTruthy (fd !! "name"%string) && jsTruthy (fd !! "email"%string) &&
  jsTruthy (fd !! "phone"%string) && jsTruthy (fd !! "service"%string).

(** [file.fieldname.startsWith('aadharCard')] (index.js:757). *)
Definition isAadharCard (f : File) : bool := String.prefix "aadharCard" (fieldname f).

(** [aadharCardFiles] (index.js:757). *)
Definition aadharCardFiles (uploaded : list File) : list File :=
  List.filter isAadharCard uploaded.

(** The object built at index.js:773-779; [orderId] and [amount] are
    copied as they come and may be undefined. *)
Record PaymentFields := mkPaymentFields {
  pf_paymentId : string;
  pf_orderId : option string;
  pf_amount : option string;
  pf_transactionId : string;
  pf_orderStatus : string
}.

(** [formData.paymentId ? {...} : null] (index.js:773-779). *)
Definition extractPaymentInfo (fd : FormData) : option PaymentFields :=
  match fd !! "paymentId"%string with
  | Some (String c s) =>
      Some (mkPaymentFields (String c s) (fd !! "orderId"%string)
              (fd !! "paymentAmount"%string)
              (fieldOr (fd !! "transactionId"%string) (String c s))
              (fieldOr (fd !! "orderStatus"%string) "PAID"))
  | _ => None
  end.

(** How the validation part of the submit handler ends. *)
Inductive IntakeResult :=
| BadRequest (error : string)            (* res.status(400) *)
| Proceed (pi : option PaymentFields)    (* goes on to sendEmailsWithRetry *).

(** The submit handler up to the call of [sendEmailsWithRetry]
    (index.js:737-780): the state it leaves and how it goes on. *)
Definition contactIntake (fd : FormData) (uploaded : list File) (st : State)
  : State * IntakeResult :=
  if negb (requiredFieldsPresent fd) then (st, BadRequest "Missing required fields")
  else match aadharCardFiles uploaded with
       | [] => (set_uploads (unlinkAll uploaded (uploads st)) st,
                BadRequest "Aadhar Card upload is mandatory. Please upload your Aadhar Card to continue.")
       | _ :: _ => (st, Proceed (extractPaymentInfo fd))
       end.

(** ** Monitoring endpoint (index.js:982-1011) *)

(** [Math.round((now - createdAt) / 60000)]: the nearest integer, halves
    upwards. *)
Definition ageMinutes (now created : Z) : Z := (now - created + 30000) / 60000.

(** One element of [retries] (index.js:988-998); the ISO rendering of
    [createdAt] is left as the number. *)
Record RetryReport := mkRetryReport {
  r_clientId : string;
  r_customerName : option string;
  r_customerEmail : option string;
  r_service : option string;
  r_retryCount : Z;
  r_createdAt : Z;
  r_ageMinutes : Z;
  r_paymentAmount : option string;
  r_paymentId : option string
}.

Definition reportOf (now : Z) (kv : string * RetryData) : RetryReport :=
  mkRetryReport kv.1 (formData kv.2 !! "name"%string) (formData kv.2 !! "email"%string)
                (formData kv.2 !! "service"%string) (retryCount kv.2) (createdAt kv.2)
                (ageMinutes now (createdAt kv.2))
                (amount <$> paymentInfo kv.2) (paymentId <$> paymentInfo kv.2).

(** The [retries] array of the response, one element per ledger entry. *)
Definition emailRetries (st : State) : list RetryReport :=
  reportOf (Date_now st) <$> map_to_list (pendingEmailRetries st).

(** [totalPendingRetries]. *)
Definition totalPendingRetries (st : State) : nat := length (emailRetries st).

(** ** Well-formedness of the ledger and the timer table *)

(** What every entry of the ledger looks like, and how handles relate to
    the handle counter. *)
Record ledgerWellFormed (st : State) : Prop := mkLedgerWellFormed {
  entry_under_own_id :
    ∀ cid rd, pendingEmailRetries st !! cid = Some rd → clientId rd = cid;
  entry_is_paid :
    ∀ cid rd, pendingEmailRetries st !! cid = Some rd → is_Some (paymentInfo rd);
  entry_has_handle :
    ∀ cid rd, pendingEmailRetries st !! cid = Some rd →
              ∃ id, timeoutId rd = Some id ∧ (id < nextTimerId st)%nat;
  handles_below_counter :
    ∀ id x, timers st !! id = Some x → (id < nextTimerId st)%nat;
  entry_timer_is_own :
    ∀ cid rd id due cb,
      pendingEmailRetries st !! cid = Some rd → timeoutId rd = Some id →
      timers st !! id = Some (due, cb) →
      cb = RetryCallback (mkCall (formData rd) (files rd) (clientId rd)
                                 (paymentInfo rd) (retryCount rd))
}.

(** What the clock bounds. *)
Record timesBounded (st : State) : Prop := mkTimesBounded {
  created_in_past :
    ∀ cid rd, pendingEmailRetries st !! cid = Some rd → createdAt rd ≤ Date_now st;
  retry_due_soon :
    ∀ id due c, timers st !! id = Some (due, RetryCallback c) →
                due ≤ Date_now st + 600000;
  cleanup_due_soon :
    ∀ id due fs cid, timers st !! id = Some (due, CleanupCheckCallback fs cid) →
                     due ≤ Date_now st + 30 * 60 * 1000
}.

(** Every identity in the ledger has a failure on the console: the line
    that announced the retry the entry stands for. *)
Definition failuresLogged (st : State) : Prop :=
  ∀ cid rd, pendingEmailRetries st !! cid = Some rd →
            ∃ delay clamped,
              EvRetryScheduled cid (retryCount rd) delay clamped ∈ console st.

(** ** Counting attempts of one identity *)

Definition isCallFor (cid : string) (co : Call * Origin) : bool :=
  bool_decide (c_clientId co.1 = cid).

(** Suspended calls of [sendEmailsWithRetry] for [cid]. *)
Definition inflightFor (cid : string) (st : State) : nat :=
  length (List.filter (isCallFor cid) (inflight st)).

(** Requests of a schedule that start an attempt for [cid] from outside:
    submissions under that identity and manual retries of it. *)
Definition startsAttemptFor (cid : string) (a : Action) : bool :=
  match a with
  | Submit _ _ c _ => bool_decide (c = cid)
  | ManualRetry c => bool_decide (c = cid)
  | _ => false
  end.

Definition requestsFor (cid : string) (acts : list Action) : nat :=
  length (List.filter (startsAttemptFor cid) acts).

(** Number of armed retry timers of [cid]. *)
Definition armedRetryCount (cid : string) (st : State) : nat :=
  length (armedRetryTimers cid st).

(** ** Identifiers (index.js:233-244) *)

(** [s.slice(-n)] for a string: its last [n] characters, all of it when
    it is shorter. *)
Fixpoint dropString (n : nat) (s : string) : string :=
  match n, s with
  | O, _ => s
  | S n', String _ s' => dropString n' s'
  | S _, EmptyString => EmptyString
  end.

Definition sliceLast (n : nat) (s : string) : string :=
  dropString (String.length s - n) s.

Fixpoint zeros (n : nat) : string :=
  match n with
  | O => EmptyString
  | S n' => String "0"%char (zeros n')
  end.

(** [s.padStart(n, '0')]. *)
Definition padStart (n : nat) (s : string) : string :=
  zeros (n - String.length s) +:+ s.

(** [generateClientId] (index.js:233-237).  [now] is [Date.now()] and
    [rnd] is [Math.floor(Math.random() * 10000)], a number below 10000;
    [pretty] is the decimal rendering of [toString()]. *)
Definition generateClientId (now rnd : N) : string :=
  "TT25" +:+ sliceLast 6 (pretty now) +:+ padStart 4 (pretty rnd).

(** [generateOrderId] (index.js:240-244); [rnd] is
    [Math.floor(Math.random() * 1000)]. *)
Definition generateOrderId (now rnd : N) : string :=
  "ORDER_TT25_" +:+ pretty now +:+ "_" +:+ padStart 3 (pretty rnd).

(** The decimal digits of [y] on exactly [k] positions, zeros in front. *)
Fixpoint digitsFixed (k : nat) (y : N) : string :=
  match k with
  | O => EmptyString
  | S k' => digitsFixed k' (y `div` 10)%N +:+ String (pretty_N_char (y `mod` 10)%N) EmptyString
  end.

(** No character of the string is an underscore. *)
Fixpoint underscoreFree (s : string) : bool :=
  match s with
  | EmptyString => true
  | String c s' => negb (Ascii.eqb c "_") && underscoreFree s'
  end.

(** The entry the first failure of the sample submission leaves. *)
Definition firstFailureEntry : RetryData :=
  mkRetryData sampleForm [aadhar] sampleId (Some samplePayment) 1 0 (Some 0%nat).

(** The call the timer of that entry is armed with. *)
Definition firstRetryCall : Call :=
  mkCall sampleForm [aadhar] sampleId (Some samplePayment) 1.

(** The sample submission, paid and unpaid, with its first attempt under way. *)
Definition paidSubmitted : list Action :=
  [Submit sampleForm [aadhar] sampleId (Some samplePayment)].

Definition unpaidSubmitted : list Action :=
  [Submit sampleForm [aadhar] sampleId None].

(** ** Which files the coordinator holds *)

(** The files a timer's closure has captured. *)
Definition callbackFiles (cb : Callback) : list File :=
  match cb with
  | RetryCallback c => c_files c
  | CleanupCheckCallback fs _ => fs
  | DeferredCleanupCallback fs _ => fs
  end.

(** A file object is held by the state: by a ledger entry, by the closure
    of an armed timer or by a suspended call. *)
Definition holdsFile (st : State) (f : File) : Prop :=
  (∃ cid rd, pendingEmailRetries st !! cid = Some rd ∧ f ∈ files rd) ∨
  (∃ id due cb, timers st !! id = Some (due, cb) ∧ f ∈ callbackFiles cb) ∨
  (∃ c o, (c, o) ∈ inflight st ∧ f ∈ c_files c).

(** The files a request brings in. *)
Definition actionFiles (a : Action) : list File :=
  match a with
  | Submit _ fs _ _ => fs
  | TestCleanup fs _ => fs
  | _ => []
  end.

(** [st'] holds and has deleted nothing beyond what [st] held and the
    files of [P]. *)
Record touchesOnly (P : File → Prop) (st st' : State) : Prop := mkTouchesOnly {
  ledger_from :
    ∀ cid rd, pendingEmailRetries st' !! cid = Some rd →
              pendingEmailRetries st !! cid = Some rd ∨ ∀ f, f ∈ files rd → P f;
  timers_from :
    ∀ id due cb, timers st' !! id = Some (due, cb) →
                 timers st !! id = Some (due, cb) ∨ ∀ f, f ∈ callbackFiles cb → P f;
  inflight_from :
    ∀ c o, (c, o) ∈ inflight st' → (c, o) ∈ inflight st ∨ ∀ f, f ∈ c_files c → P f;
  storage_shrinks : existing (uploads st') ⊆ existing (uploads st);
  deleted_from :
    ∀ p, p ∈ existing (uploads st) → p ∉ existing (uploads st') →
         ∃ f, P f ∧ path f = p
}.

(** * Properties *)

(** ** Attachment Cleaner *)

Section Cleaner.
Implicit Types (s : Storage) (c : CleanupCounts) (fs : list File).

Lemma stuck_same_files s s' fs :
  undeletable s' = undeletable s →
  (∀ f, f ∈ fs → path f ∈ undeletable s → (path f ∈ existing s' ↔ path f ∈ existing s)) →
  length (filter (stuck s') fs) = length (filter (stuck s) fs).
Proof.
  intros Hu. induction fs as [|f fs IH]; intros Hex; [done|].
  assert (length (filter (stuck s') fs) = length (filter (stuck s) fs)) as IH'.
  { apply IH. intros g Hg. apply Hex. by right. }
  rewrite !filter_cons.
  destruct (decide (stuck s' f)) as [[H1 H2]|Hn'];
    destruct (decide (stuck s f)) as [[H3 H4]|Hn]; simpl; try lia.
  - exfalso. apply Hn. rewrite Hu in H2. split; [|done].
    apply Hex; [by left|done|done].
  - exfalso. apply Hn'. split; [|by rewrite Hu].
    apply Hex; [by left|done|done].
Qed.

Lemma difference_skip_locked (E U P : gset string) p :
  p ∈ U → E ∖ (({[p]} ∪ P) ∖ U) = E ∖ (P ∖ U).
Proof. set_solver. Qed.

Lemma difference_skip_missing (E U P : gset string) p :
  p ∉ E → E ∖ (({[p]} ∪ P) ∖ U) = E ∖ (P ∖ U).
Proof. set_solver. Qed.

Lemma difference_after_delete (E U P : gset string) p :
  p ∉ U → (E ∖ {[p]}) ∖ (P ∖ U) = E ∖ (({[p]} ∪ P) ∖ U).
Proof. set_solver. Qed.

Lemma size_after_delete (E : gset string) p :
  p ∈ E → size E = S (size (E ∖ {[p]})).
Proof.
  intros Hp.
  rewrite (union_difference_L {[p]} E) at 1 by set_solver.
  rewrite size_union by set_solver. by rewrite size_singleton.
Qed.

(** What one pass of the loop does to the storage and the counters. *)
Lemma cleanupFiles_loop_spec fs : ∀ s c,
  ∃ s' c', cleanupFiles_loop fs s c = (s', c') ∧
    undeletable s' = undeletable s ∧
    existing s' = existing s ∖ (list_to_set (path <$> fs) ∖ undeletable s) ∧
    errorCount c' = (errorCount c + length (filter (stuck s) fs))%nat ∧
    (deletedCount c' + size (existing s') = deletedCount c + size (existing s))%nat.
Proof.
  induction fs as [|f fs IH]; intros s c.
  - exists s, c. simpl. repeat split; try lia.
    rewrite difference_disjoint_L; [done|]. set_solver.
  - simpl. unfold cleanupFiles_try, unlink, existsSync.
    destruct (decide (path f ∈ existing s)) as [Hex|Hex].
    + rewrite !(bool_decide_eq_true_2 _ Hex).
      destruct (decide (path f ∈ undeletable s)) as [Hun|Hun].
      * rewrite (bool_decide_eq_true_2 _ Hun).
        destruct (IH s (mkCounts (deletedCount c) (S (errorCount c))))
          as (s' & c' & -> & Hu & He & Herr & Hdel).
        exists s', c'. simpl in *. repeat split; [done| |..].
        -- rewrite He. by rewrite difference_skip_locked.
        -- rewrite filter_cons_True by done. simpl. lia.
        -- lia.
      * rewrite (bool_decide_eq_false_2 _ Hun).
        destruct (IH (mkStorage (existing s ∖ {[path f]}) (undeletable s))
                     (mkCounts (S (deletedCount c)) (errorCount c)))
          as (s' & c' & -> & Hu & He & Herr & Hdel).
        exists s', c'. simpl in *. repeat split; [done| |..].
        -- rewrite He. by apply difference_after_delete.
        -- rewrite filter_cons_False by (intros [_ ?]; done).
           rewrite Herr. f_equal. apply stuck_same_files; [done|].
           intros g _ Hg. simpl. rewrite elem_of_difference, elem_of_singleton.
           split; [by intros [? _]|]. intros Hg'. split; [done|].
           intros Heq. apply Hun. by rewrite <- Heq.
        -- rewrite Hdel. rewrite (size_after_delete (existing s) (path f)) by done. lia.
    + rewrite !(bool_decide_eq_false_2 _ Hex).
      destruct (IH s c) as (s' & c' & -> & Hu & He & Herr & Hdel).
      exists s', c'. repeat split; [done| |..].
      * rewrite He. by rewrite difference_skip_missing.
      * rewrite filter_cons_False by (intros [? _]; done). done.
      * done.
Qed.

(** When everything listed is either gone or stuck, a pass deletes
    nothing and leaves the storage as it is. *)
Lemma cleanupFiles_loop_stable fs : ∀ s c,
  (∀ f, f ∈ fs → path f ∈ existing s → path f ∈ undeletable s) →
  cleanupFiles_loop fs s c =
    (s, mkCounts (deletedCount c) (errorCount c + length (filter (stuck s) fs))).
Proof.
  induction fs as [|f fs IH]; intros s c Hall.
  - simpl. destruct c; simpl. by rewrite Nat.add_0_r.
  - simpl. unfold cleanupFiles_try, unlink, existsSync.
    assert (∀ g, g ∈ fs → path g ∈ existing s → path g ∈ undeletable s) as Hrest.
    { intros g Hg. apply Hall. by right. }
    destruct (decide (path f ∈ existing s)) as [Hex|Hex].
    + assert (path f ∈ undeletable s) as Hun by (apply Hall; [by left|done]).
      rewrite !(bool_decide_eq_true_2 _ Hex), (bool_decide_eq_true_2 _ Hun).
      rewrite IH by done. simpl.
      rewrite filter_cons_True by done. simpl. do 2 f_equal. lia.
    + rewrite !(bool_decide_eq_false_2 _ Hex).
      rewrite IH by done.
      rewrite filter_cons_False by (intros [? _]; done). done.
Qed.

(** C9, as the code has it: [cleanupFiles] resolves for every file list
    (it never rejects); a listed file that exists and can be unlinked is
    deleted and counted once, one whose unlink is rejected is counted as
    an error and stays, a missing one is neither; and a second call on
    the same list deletes nothing, leaves the storage alone and counts
    exactly the errors of the first call again.  So the second call is
    free of errors precisely when the first one was. *)
Theorem cleanupFiles_total_and_repeatable fs cid s :
  ∃ s1 c1 c2,
    cleanupFiles fs cid s = (s1, Resolved c1) ∧
    cleanupFiles fs cid s1 = (s1, Resolved c2) ∧
    undeletable s1 = undeletable s ∧
    existing s1 = existing s ∖ (list_to_set (path <$> fs) ∖ undeletable s) ∧
    errorCount c1 = length (filter (stuck s) fs) ∧
    (deletedCount c1 + size (existing s1) = size (existing s))%nat ∧
    deletedCount c2 = 0%nat ∧
    errorCount c2 = errorCount c1.
Proof.
  destruct (cleanupFiles_loop_spec fs s (mkCounts 0 0))
    as (s1 & c1 & Hrun & Hu & He & Herr & Hdel).
  simpl in Herr, Hdel.
  assert (∀ f, f ∈ fs → path f ∈ existing s1 → path f ∈ undeletable s1) as Hleft.
  { intros f Hf. rewrite He, Hu, elem_of_difference. intros [_ Hnot].
    destruct (decide (path f ∈ undeletable s)) as [|Hn]; [done|].
    exfalso. apply Hnot. apply elem_of_difference. split; [|done].
    apply elem_of_list_to_set, list_elem_of_fmap. by exists f. }
  assert (length (filter (stuck s1) fs) = length (filter (stuck s) fs)) as Hsame.
  { apply stuck_same_files; [done|]. intros f Hf Hun.
    rewrite He, elem_of_difference. split; [by intros [? _]|].
    intros Hex. split; [done|]. rewrite elem_of_difference. by intros [_ ?]. }
  exists s1, c1, (mkCounts 0 (length (filter (stuck s1) fs))).
  unfold cleanupFiles. rewrite Hrun.
  rewrite (cleanupFiles_loop_stable fs s1 (mkCounts 0 0) Hleft). simpl.
  repeat split; try done; lia.
Qed.

(** C9 as stated fails: a file whose unlink is rejected is an error of
    the second call as much as of the first. *)
Lemma cleanupFiles_second_call_errors :
  errorsOf (cleanupFiles [aadhar] sampleId lockedDisk).2 = Some 1%nat ∧
  errorsOf (cleanupFiles [aadhar] sampleId
              (cleanupFiles [aadhar] sampleId lockedDisk).1).2 = Some 1%nat.
Proof. split; vm_compute; reflexivity. Qed.
End Cleaner.

(** ** Retry Scheduler: one settled attempt *)

Section Settle.
Variable production : bool.
Implicit Types (st : State) (c : Call).

(** C8: a failed attempt of a submission without payment changes nothing
    and resolves to [{success: false, willRetry: false, error}]: the
    ledger, the timer table, the upload directory and the console (hence
    the calls of [cleanupFiles]) are those of before, whatever the retry
    count and whichever of the two mails failed. *)
Theorem unpaid_failure_changes_nothing fd fs cid rc stage message st :
  sendEmailsWithRetry_settle production (mkCall fd fs cid None rc)
                             (SendFailed stage message) st
  = (st, ResFailed message).
Proof.
  unfold sendEmailsWithRetry_settle. simpl c_paymentInfo.
  rewrite bool_decide_eq_false_2 by (intros [[? ?] _]; discriminate).
  rewrite (bool_decide_eq_false_2 (is_Some None)) by (intros [? ?]; discriminate).
  reflexivity.
Qed.

(** C5, as the code has it: a successful attempt resolves to
    [{success: true}] and leaves no entry for the identity.  If there
    was an entry, its timer is cleared first and, when the attachment
    list is not empty, the Cleanup Scheduler is triggered for it; if
    there was none, nothing is scheduled here and the state is unchanged
    (the submit handler schedules the cleanup of a first-try success). *)
Theorem success_clears_entry_then_schedules c st :
  let '(st', r) := sendEmailsWithRetry_settle production c Sent st in
  r = ResSuccess ∧
  pendingEmailRetries st' = delete (c_clientId c) (pendingEmailRetries st) ∧
  timers st' =
    match pendingEmailRetries st !! c_clientId c with
    | Some rd =>
        let cleared := match timeoutId rd with
                       | Some id => delete id (timers st)
                       | None => timers st
                       end in
        if nonEmpty (c_files c)
        then <[nextTimerId st :=
                 (Date_now st + cleanupDelay production,
                  CleanupCheckCallback (c_files c) (c_clientId c))]> cleared
        else cleared
    | None => timers st
    end ∧
  console st' = console st ∧ uploads st' = uploads st ∧
  (pendingEmailRetries st !! c_clientId c = None → st' = st).
Proof.
  unfold sendEmailsWithRetry_settle.
  destruct (pendingEmailRetries st !! c_clientId c) as [rd|] eqn:Hrd.
  - unfold clearTimeoutOf, clearTimeout, scheduleFileCleanup.
    destruct (timeoutId rd) as [id|], (nonEmpty (c_files c)); simpl;
      repeat split; try done.
  - repeat split; try done. by rewrite delete_id.
Qed.

(** The submit handler completes C5 for a first-try success: with a
    non-empty attachment list it arms the cleanup itself. *)
Lemma submit_success_schedules c st :
  nonEmpty (c_files c) = true →
  timers (submitContinuation production c ResSuccess st) =
    <[nextTimerId st := (Date_now st + cleanupDelay production,
                         CleanupCheckCallback (c_files c) (c_clientId c))]> (timers st).
Proof. intros H. unfold submitContinuation. by rewrite H. Qed.

(** C6, as the code has it: a failed attempt of a paid submission with
    budget left stores an entry that copies the form data, the
    attachments and the payment data, carries the incremented retry
    count and the handle of the newly armed timer, and is stamped with
    the time of THIS failure, whatever entry the ledger held before. *)
Theorem failure_entry_is_stamped_now fd fs cid pi rc stage message st :
  rc < maxRetries EMAIL_RETRY_CONFIG →
  pendingEmailRetries
    (sendEmailsWithRetry_settle production (mkCall fd fs cid (Some pi) rc)
                                (SendFailed stage message) st).1 !! cid
  = Some (mkRetryData fd fs cid (Some pi) (rc + 1) (Date_now st)
                      (Some (nextTimerId st))).
Proof.
  intros Hrc. unfold sendEmailsWithRetry_settle. simpl c_paymentInfo. simpl c_retryCount.
  rewrite bool_decide_eq_true_2 by (split; [by eexists|done]).
  destruct (retryDelayLookup EMAIL_RETRY_CONFIG rc) as [d clamped].
  simpl. by rewrite lookup_insert_eq.
Qed.
End Settle.

(** C5 as stated fails: with two overlapping manual retries, the attempt
    that succeeds second finds no entry, so although it carries an
    attachment it arms no cleanup (and its caller arms none either). *)
Lemma second_success_schedules_nothing :
  ∃ st st',
    run false overlapFirstSucceeds (initialState 0 sampleDisk) = Some st ∧
    (c_files ∘ fst) <$> inflight st = [[aadhar]] ∧
    step false (SendDone 0 Sent) st = Some st' ∧
    timers st' = timers st ∧ inflight st' = [].
Proof.
  eexists _, _. split; [vm_compute; reflexivity|].
  split; [reflexivity|]. split; [vm_compute; reflexivity|].
  split; reflexivity.
Qed.

(** C6 as stated fails: the entry left by the first failure is stamped 0;
    once the automatic retry has failed at 30 s, the entry that replaced
    it is stamped 30000. *)
Lemma replaced_entry_is_restamped :
  createdAt <$> pendingEmailRetries (stateAfter false firstFailure) !! sampleId = Some 0 ∧
  createdAt <$> pendingEmailRetries
                  (stateAfter false (secondAttemptInFlight ++ [SendDone 0 transportDown]))
                !! sampleId = Some 30000.
Proof. split; vm_compute; reflexivity. Qed.

Lemma failure_entry_is_stamped_now_witness :
  pendingEmailRetries
    (sendEmailsWithRetry_settle false
       (mkCall sampleForm [aadhar] sampleId (Some samplePayment) 1)
       transportDown (stateAfter false secondAttemptInFlight)).1 !! sampleId
  = Some (mkRetryData sampleForm [aadhar] sampleId (Some samplePayment) (1 + 1)
                      (Date_now (stateAfter false secondAttemptInFlight))
                      (Some (nextTimerId (stateAfter false secondAttemptInFlight)))).
Proof.
  apply (failure_entry_is_stamped_now false sampleForm [aadhar] sampleId samplePayment 1
           AdminMail "ECONNREFUSED" (stateAfter false secondAttemptInFlight)).
  reflexivity.
Defined.

(** ** Cleanup Scheduler *)

Section Scheduler.
Variable production : bool.
Implicit Types (st : State) (fs : list File) (cid : string).

Lemma call_cleanupFiles_fields fs cid st :
  ∃ r, console (call_cleanupFiles fs cid st)
       = EvCleanupFiles cid fs (bool_decide (is_Some (pendingEmailRetries st !! cid))) r
         :: console st ∧
    uploads (call_cleanupFiles fs cid st) = (cleanupFiles fs cid (uploads st)).1 ∧
    pendingEmailRetries (call_cleanupFiles fs cid st) = pendingEmailRetries st ∧
    timers (call_cleanupFiles fs cid st) = timers st ∧
    nextTimerId (call_cleanupFiles fs cid st) = nextTimerId st ∧
    inflight (call_cleanupFiles fs cid st) = inflight st ∧
    Date_now (call_cleanupFiles fs cid st) = Date_now st.
Proof.
  unfold call_cleanupFiles.
  destruct (cleanupFiles fs cid (uploads st)) as [disk r]. exists r. simpl. auto 10.
Qed.

(** C2, as the code has it: when the cleanup timer fires and the ledger
    holds the identity, nothing is deleted at that firing and ONE further
    timer is armed, 2 minutes ahead in production and 10 minutes
    otherwise; when that timer fires, [cleanupFiles] is called at once,
    whatever the ledger [st2] of that moment holds: there is no second
    look at the ledger and no further deferral. *)
Theorem cleanup_is_deferred_once fs cid st :
  is_Some (pendingEmailRetries st !! cid) →
  console (cleanupCheck production fs cid st) = console st ∧
  uploads (cleanupCheck production fs cid st) = uploads st ∧
  timers (cleanupCheck production fs cid st) =
    <[nextTimerId st := (Date_now st + (if production then 120000 else 600000),
                         DeferredCleanupCallback fs cid)]> (timers st) ∧
  ∀ st2, ∃ r,
    console (runCallback production (DeferredCleanupCallback fs cid) st2)
    = EvCleanupFiles cid fs (bool_decide (is_Some (pendingEmailRetries st2 !! cid))) r
      :: console st2 ∧
    timers (runCallback production (DeferredCleanupCallback fs cid) st2) = timers st2.
Proof.
  intros Hentry. unfold cleanupCheck.
  rewrite (bool_decide_eq_true_2 _ Hentry). simpl.
  split; [reflexivity|]. split; [reflexivity|]. split.
  - unfold cleanupRetryDelay. by destruct production.
  - intros st2. unfold deferredCleanup.
    destruct (call_cleanupFiles_fields fs cid st2) as (r & Hc & _ & _ & Ht & _).
    exists r. by rewrite Hc, Ht.
Qed.

(** Without an entry the first firing cleans at once. *)
Lemma cleanup_runs_when_no_entry fs cid st :
  pendingEmailRetries st !! cid = None →
  cleanupCheck production fs cid st = call_cleanupFiles fs cid st.
Proof.
  intros Hnone. unfold cleanupCheck.
  rewrite bool_decide_eq_false_2; [done|]. rewrite Hnone. by intros [? ?].
Qed.
End Scheduler.

Lemma cleanup_is_deferred_once_witness :
  console (cleanupCheck true [aadhar] sampleId (stateAfter true firstFailure))
    = console (stateAfter true firstFailure) ∧
  uploads (cleanupCheck true [aadhar] sampleId (stateAfter true firstFailure))
    = uploads (stateAfter true firstFailure) ∧
  timers (cleanupCheck true [aadhar] sampleId (stateAfter true firstFailure)) =
    <[nextTimerId (stateAfter true firstFailure) :=
        (Date_now (stateAfter true firstFailure) + 120000,
         DeferredCleanupCallback [aadhar] sampleId)]> (timers (stateAfter true firstFailure)) ∧
  ∀ st2, ∃ r,
    console (runCallback true (DeferredCleanupCallback [aadhar] sampleId) st2)
    = EvCleanupFiles sampleId [aadhar]
        (bool_decide (is_Some (pendingEmailRetries st2 !! sampleId))) r :: console st2 ∧
    timers (runCallback true (DeferredCleanupCallback [aadhar] sampleId) st2) = timers st2.
Proof.
  apply (cleanup_is_deferred_once true [aadhar] sampleId (stateAfter true firstFailure)).
  vm_compute. eexists. reflexivity.
Defined.

(** C2 as stated fails: in the production profile, a retry chain that is
    still running when the deferred timer fires does not hold the cleanup
    back a second time.  The ledger holds the identity (retry count 4, its
    timer armed) and [cleanupFiles] is called all the same; the file is
    gone afterwards. *)
Lemma deferred_cleanup_does_not_recheck :
  ∃ st,
    run true cleanupRacesRetry (initialState 0 sampleDisk) = Some st ∧
    retryCount <$> pendingEmailRetries st !! sampleId = Some 4 ∧
    armedRetryTimers sampleId st = [4%nat] ∧
    cleanupsOf sampleId (console st) = [true] ∧
    existing (uploads st) = ∅.
Proof.
  eexists. split; [vm_compute; reflexivity|].
  repeat split; vm_compute; reflexivity.
Qed.

(** ** Expiry Sweeper *)

Section Sweeper.
Implicit Types (st : State) (cid k : string) (rd : RetryData) (l : list string).

Lemma expiredEntries_spec now (m : gmap string RetryData) k :
  k ∈ expiredEntries now m ↔ ∃ rd, m !! k = Some rd ∧ expired now rd = true.
Proof.
  unfold expiredEntries. rewrite list_elem_of_fmap. split.
  - intros ([k' rd] & -> & Hin). apply list_elem_of_filter in Hin as [Hexp Hin].
    apply elem_of_map_to_list in Hin. by exists rd.
  - intros (rd & Hk & Hexp). exists (k, rd). split; [done|].
    apply list_elem_of_filter. split; [done|]. by apply elem_of_map_to_list.
Qed.

(** What purging one identity does. *)
Lemma purgeEntry_present st cid rd :
  pendingEmailRetries st !! cid = Some rd →
  pendingEmailRetries (purgeEntry st cid) = delete cid (pendingEmailRetries st) ∧
  timers (purgeEntry st cid) =
    match timeoutId rd with Some id => delete id (timers st) | None => timers st end ∧
  (∃ new, console (purgeEntry st cid) = new ++ console st ∧
     ((nonEmpty (files rd) = false ∧ new = []) ∨
      (nonEmpty (files rd) = true ∧ ∃ r, new = [EvCleanupFiles cid (files rd) true r]))) ∧
  Date_now (purgeEntry st cid) = Date_now st ∧
  inflight (purgeEntry st cid) = inflight st ∧
  nextTimerId (purgeEntry st cid) = nextTimerId st.
Proof.
  intros Hrd. unfold purgeEntry. rewrite Hrd.
  set (st1 := clearTimeoutOf rd st).
  assert (pendingEmailRetries st1 = pendingEmailRetries st ∧
          timers st1 = match timeoutId rd with
                       | Some id => delete id (timers st) | None => timers st end ∧
          console st1 = console st ∧ Date_now st1 = Date_now st ∧
          inflight st1 = inflight st ∧ nextTimerId st1 = nextTimerId st)
    as (Hl & Ht & Hc & Hd & Hi & Hn).
  { unfold st1, clearTimeoutOf. by destruct (timeoutId rd). }
  destruct (nonEmpty (files rd)) eqn:Hne.
  - destruct (call_cleanupFiles_fields (files rd) cid st1)
      as (r & Hc' & _ & Hl' & Ht' & Hn' & Hi' & Hd').
    simpl. rewrite Hl', Ht', Hc', Hd', Hi', Hn', Hl, Ht, Hc, Hd, Hi, Hn.
    repeat split; try done.
    exists [EvCleanupFiles cid (files rd) true r]. split.
    + simpl. do 2 f_equal. rewrite Hrd. apply bool_decide_eq_true_2. by eexists.
    + right. split; [done|]. by exists r.
  - simpl. rewrite Hl, Ht, Hc, Hd, Hi, Hn. repeat split; try done.
    exists []. split; [done|]. by left.
Qed.

Lemma purgeEntry_absent st cid :
  pendingEmailRetries st !! cid = None → purgeEntry st cid = st.
Proof. intros H. unfold purgeEntry. by rewrite H. Qed.

Lemma purgeEntry_ledger st cid :
  pendingEmailRetries (purgeEntry st cid) = delete cid (pendingEmailRetries st).
Proof.
  destruct (pendingEmailRetries st !! cid) as [rd|] eqn:Hrd.
  - by destruct (purgeEntry_present st cid rd Hrd) as (-> & _).
  - rewrite purgeEntry_absent by done. by rewrite delete_id.
Qed.

Lemma purgeEntry_timers st cid id :
  timers st !! id = None → timers (purgeEntry st cid) !! id = None.
Proof.
  intros Hid. destruct (pendingEmailRetries st !! cid) as [rd|] eqn:Hrd.
  - destruct (purgeEntry_present st cid rd Hrd) as (_ & -> & _).
    destruct (timeoutId rd) as [id'|]; [|done].
    apply lookup_delete_None. by right.
  - by rewrite purgeEntry_absent.
Qed.

Lemma purgeEntry_timers_sub st cid id x :
  timers (purgeEntry st cid) !! id = Some x → timers st !! id = Some x.
Proof.
  destruct (pendingEmailRetries st !! cid) as [rd|] eqn:Hrd.
  - destruct (purgeEntry_present st cid rd Hrd) as (_ & -> & _).
    destruct (timeoutId rd) as [id'|]; [|done].
    rewrite lookup_delete_Some. by intros [_ ?].
  - by rewrite purgeEntry_absent.
Qed.

Lemma purgeEntry_console st cid :
  ∃ new, console (purgeEntry st cid) = new ++ console st ∧
    ∀ e, e ∈ new → ∃ rd r, e = EvCleanupFiles cid (files rd) true r ∧
                           pendingEmailRetries st !! cid = Some rd.
Proof.
  destruct (pendingEmailRetries st !! cid) as [rd|] eqn:Hrd.
  - destruct (purgeEntry_present st cid rd Hrd)
      as (_ & _ & (new & Hc & [[_ ->]|[_ [r ->]]]) & _).
    + exists []. split; [done|]. intros e He. by apply elem_of_nil in He.
    + exists [EvCleanupFiles cid (files rd) true r]. split; [done|].
      intros e He. apply list_elem_of_singleton in He as ->. by exists rd, r.
  - rewrite purgeEntry_absent by done. exists []. split; [done|].
    intros e He. by apply elem_of_nil in He.
Qed.

(** The whole [forEach]. *)
Lemma purge_all_ledger l : ∀ st k,
  pendingEmailRetries (foldl purgeEntry st l) !! k =
    if bool_decide (k ∈ l) then None else pendingEmailRetries st !! k.
Proof.
  induction l as [|k0 l IH]; intros st k; cbn [foldl].
  - rewrite bool_decide_eq_false_2; [done|]. by intros ?%elem_of_nil.
  - rewrite IH, purgeEntry_ledger.
    destruct (decide (k ∈ l)) as [Hin|Hin].
    + rewrite !bool_decide_eq_true_2; [done| |done]. by right.
    + rewrite (bool_decide_eq_false_2 _ Hin).
      destruct (decide (k = k0)) as [->|Hne].
      * rewrite lookup_delete_eq. rewrite bool_decide_eq_true_2; [done|]. by left.
      * rewrite lookup_delete_ne by done.
        rewrite bool_decide_eq_false_2; [done|].
        intros [?|?]%elem_of_cons; done.
Qed.

Lemma purge_all_timers l : ∀ st id,
  timers st !! id = None → timers (foldl purgeEntry st l) !! id = None.
Proof.
  induction l as [|k0 l IH]; intros st id Hid; simpl; [done|].
  apply IH. by apply purgeEntry_timers.
Qed.

Lemma purge_all_timers_sub l : ∀ st id x,
  timers (foldl purgeEntry st l) !! id = Some x → timers st !! id = Some x.
Proof.
  induction l as [|k0 l IH]; intros st id x Hid; simpl in *; [done|].
  eapply purgeEntry_timers_sub, IH, Hid.
Qed.

Lemma purge_all_frame l : ∀ st,
  Date_now (foldl purgeEntry st l) = Date_now st ∧
  inflight (foldl purgeEntry st l) = inflight st ∧
  nextTimerId (foldl purgeEntry st l) = nextTimerId st.
Proof.
  induction l as [|k0 l IH]; intros st; simpl; [done|].
  destruct (IH (purgeEntry st k0)) as (-> & -> & ->).
  destruct (pendingEmailRetries st !! k0) as [rd|] eqn:Hrd.
  - by destruct (purgeEntry_present st k0 rd Hrd) as (_ & _ & _ & -> & -> & ->).
  - by rewrite purgeEntry_absent.
Qed.

Lemma purge_all_console l : ∀ st,
  ∃ new, console (foldl purgeEntry st l) = new ++ console st ∧
    ∀ e, e ∈ new → ∃ k rd r, e = EvCleanupFiles k (files rd) true r ∧ k ∈ l ∧
                             pendingEmailRetries st !! k = Some rd.
Proof.
  induction l as [|k0 l IH]; intros st; simpl.
  - exists []. split; [done|]. intros e He. by apply elem_of_nil in He.
  - destruct (IH (purgeEntry st k0)) as (new1 & Hc1 & Hnew1).
    destruct (purgeEntry_console st k0) as (new0 & Hc0 & Hnew0).
    exists (new1 ++ new0). split.
    + by rewrite Hc1, Hc0, app_assoc.
    + intros e [He|He]%elem_of_app.
      * destruct (Hnew1 e He) as (k & rd & r & -> & Hk & Hrd).
        exists k, rd, r. split; [done|]. split; [by right|].
        rewrite purgeEntry_ledger in Hrd. by apply lookup_delete_Some in Hrd as [_ ?].
      * destruct (Hnew0 e He) as (rd & r & -> & Hrd).
        exists k0, rd, r. split; [done|]. split; [by left|done].
Qed.

(** An identity on the list is purged with everything that goes with it. *)
Lemma purge_all_member l : ∀ st k rd,
  k ∈ l → pendingEmailRetries st !! k = Some rd →
  (∀ id, timeoutId rd = Some id → timers (foldl purgeEntry st l) !! id = None) ∧
  (nonEmpty (files rd) = true →
   ∃ r, EvCleanupFiles k (files rd) true r ∈ console (foldl purgeEntry st l)).
Proof.
  induction l as [|k0 l IH]; intros st k rd Hk Hrd; [by apply elem_of_nil in Hk|].
  simpl. destruct (decide (k = k0)) as [->|Hne].
  - destruct (purgeEntry_present st k0 rd Hrd) as (_ & Ht & (new & Hc & Hnew) & _).
    split.
    + intros id Hid. apply purge_all_timers. rewrite Ht, Hid. apply lookup_delete_eq.
    + intros Hfiles. destruct Hnew as [[Hf _]|[_ [r ->]]]; [congruence|].
      exists r. destruct (purge_all_console l (purgeEntry st k0)) as (new' & -> & _).
      apply elem_of_app. right. rewrite Hc. by left.
  - apply IH.
    + by apply elem_of_cons in Hk as [?|?].
    + rewrite purgeEntry_ledger. by rewrite lookup_delete_ne.
Qed.
End Sweeper.

Section SweeperClaims.
Implicit Types (st : State) (cid : string) (rd : RetryData).

(** C4, as the code has it: a sweep purges an entry exactly when its age
    EXCEEDS 30 minutes: the timer is cleared, the entry removed and its
    files, when there are any, handed to [cleanupFiles]; an entry whose
    age is at most 30 minutes, in particular one swept at [t0 + 30 min]
    sharp, is kept as it is.  With a sweeper that runs punctually every
    5 minutes, the first sweep that purges the entry therefore comes
    after [t0 + 30 min] and no later than [t0 + 35 min]. *)
Theorem sweep_purges_after_maxAge st cid rd :
  pendingEmailRetries st !! cid = Some rd →
  (Date_now st - createdAt rd > 30 * 60 * 1000 →
     pendingEmailRetries (cleanupOldRetries st) !! cid = None ∧
     (∀ id, timeoutId rd = Some id → timers (cleanupOldRetries st) !! id = None) ∧
     (nonEmpty (files rd) = true →
      ∃ r, EvCleanupFiles cid (files rd) true r ∈ console (cleanupOldRetries st))) ∧
  (Date_now st - createdAt rd ≤ 30 * 60 * 1000 →
     pendingEmailRetries (cleanupOldRetries st) !! cid = Some rd) ∧
  (∀ boot, boot ≤ createdAt rd →
     ∃ k, createdAt rd + 30 * 60 * 1000 < sweepTime boot k
                                        ≤ createdAt rd + 35 * 60 * 1000).
Proof.
  intros Hrd. unfold cleanupOldRetries.
  split; [|split].
  - intros Hold.
    assert (cid ∈ expiredEntries (Date_now st) (pendingEmailRetries st)) as Hin.
    { apply expiredEntries_spec. exists rd. split; [done|].
      unfold expired. apply bool_decide_eq_true_2. simpl. lia. }
    split; [|split].
    + rewrite purge_all_ledger. by rewrite bool_decide_eq_true_2.
    + by apply (purge_all_member _ st cid rd).
    + by apply (purge_all_member _ st cid rd).
  - intros Hyoung. rewrite purge_all_ledger. rewrite bool_decide_eq_false_2; [done|].
    rewrite expiredEntries_spec. intros (rd' & Hrd' & Hexp).
    assert (rd' = rd) as -> by congruence.
    unfold expired in Hexp. apply bool_decide_eq_true_1 in Hexp. simpl in Hexp. lia.
  - intros boot Hboot.
    exists (Z.to_nat ((createdAt rd + 30 * 60 * 1000 - boot) / sweepInterval)).
    unfold sweepTime, sweepInterval.
    assert (0 ≤ (createdAt rd + 30 * 60 * 1000 - boot) / (5 * 60 * 1000))
      by (apply Z.div_pos; lia).
    rewrite Z2Nat.id by done.
    pose proof (Z.div_mod (createdAt rd + 30 * 60 * 1000 - boot) (5 * 60 * 1000)) as Hdm.
    pose proof (Z.mod_pos_bound (createdAt rd + 30 * 60 * 1000 - boot) (5 * 60 * 1000)).
    lia.
Qed.

(** C1, as the code has it, on the two paths that look at the ledger.
    The first firing of the cleanup timer calls [cleanupFiles] only when
    the ledger holds no entry for the identity.  The sweeper calls it
    for an expired entry while that entry is still in the ledger, and
    removes the entry in the same turn: every call it makes is for an
    identity that is gone from the ledger when the sweep returns. *)
Theorem cleanup_calls_and_ledger production st :
  (∀ fs cid,
     console (cleanupCheck production fs cid st) = console st ∨
     (pendingEmailRetries st !! cid = None ∧
      ∃ r, console (cleanupCheck production fs cid st)
           = EvCleanupFiles cid fs false r :: console st)) ∧
  (∃ new, console (cleanupOldRetries st) = new ++ console st ∧
     ∀ e, e ∈ new →
       ∃ cid rd r, e = EvCleanupFiles cid (files rd) true r ∧
         pendingEmailRetries st !! cid = Some rd ∧
         expired (Date_now st) rd = true ∧
         pendingEmailRetries (cleanupOldRetries st) !! cid = None).
Proof.
  split.
  - intros fs cid. unfold cleanupCheck.
    destruct (pendingEmailRetries st !! cid) as [rd|] eqn:Hrd.
    + left. rewrite bool_decide_eq_true_2 by (by eexists). reflexivity.
    + right. split; [done|].
      rewrite bool_decide_eq_false_2 by (by intros [? ?]).
      destruct (call_cleanupFiles_fields fs cid st) as (r & Hc & _).
      exists r. by rewrite Hc, Hrd.
  - unfold cleanupOldRetries.
    destruct (purge_all_console (expiredEntries (Date_now st) (pendingEmailRetries st)) st)
      as (new & Hc & Hnew).
    exists new. split; [done|]. intros e He.
    destruct (Hnew e He) as (cid & rd & r & -> & Hin & Hrd).
    exists cid, rd, r. split; [done|]. split; [done|].
    apply expiredEntries_spec in Hin as Hexp. destruct Hexp as (rd' & Hrd' & Hexp).
    assert (rd' = rd) as -> by congruence. split; [done|].
    rewrite purge_all_ledger. by rewrite bool_decide_eq_true_2.
Qed.
End SweeperClaims.

(** The exhaustion path for comparison: with the budget used up,
    [cleanupFiles] is called and the ledger is not touched. *)
Lemma exhaustion_keeps_ledger production fd fs cid pi stage message st :
  pendingEmailRetries
    (sendEmailsWithRetry_settle production (mkCall fd fs cid (Some pi) 5)
                                (SendFailed stage message) st).1
  = pendingEmailRetries st.
Proof.
  unfold sendEmailsWithRetry_settle.
  cbn [c_paymentInfo c_retryCount c_files c_clientId].
  rewrite bool_decide_eq_false_2 by (simpl; lia).
  destruct (bool_decide (is_Some (Some pi)) && nonEmpty fs); [|done].
  destruct (call_cleanupFiles_fields fs cid st) as (_ & _ & _ & Hl & _). exact Hl.
Qed.

Lemma sweep_purges_after_maxAge_witness :
  pendingEmailRetries (cleanupOldRetries (stateAfter false (hangingTransport ++ [Tick 300000])))
    !! sampleId = None ∧
  timers (cleanupOldRetries (stateAfter false (hangingTransport ++ [Tick 300000]))) !! 0%nat
    = None ∧
  (∃ r, EvCleanupFiles sampleId [aadhar] true r
        ∈ console (cleanupOldRetries (stateAfter false (hangingTransport ++ [Tick 300000])))) ∧
  pendingEmailRetries (cleanupOldRetries (stateAfter false firstFailure)) !! sampleId
    = Some (mkRetryData sampleForm [aadhar] sampleId (Some samplePayment) 1 0 (Some 0%nat)) ∧
  (∃ k, 0 + 30 * 60 * 1000 < sweepTime 0 k ≤ 0 + 35 * 60 * 1000).
Proof.
  destruct (sweep_purges_after_maxAge
              (stateAfter false (hangingTransport ++ [Tick 300000])) sampleId
              (mkRetryData sampleForm [aadhar] sampleId (Some samplePayment) 1 0 (Some 0%nat))
              ltac:(vm_compute; reflexivity)) as (Hold & _ & Htime).
  destruct (Hold ltac:(vm_compute; reflexivity)) as (Hgone & Htimer & Hfiles).
  destruct (sweep_purges_after_maxAge
              (stateAfter false firstFailure) sampleId
              (mkRetryData sampleForm [aadhar] sampleId (Some samplePayment) 1 0 (Some 0%nat))
              ltac:(vm_compute; reflexivity)) as (_ & Hyoung & _).
  split; [exact Hgone|]. split; [exact (Htimer 0%nat eq_refl)|].
  split; [exact (Hfiles eq_refl)|].
  split; [exact (Hyoung ltac:(vm_compute; discriminate))|].
  exact (Htime 0 ltac:(reflexivity)).
Defined.

(** C4 as stated fails: an entry created at 0 with retry count 1 is still
    in the ledger after the sweep that runs at 30 min sharp; it is the
    sweep at 35 min that purges it. *)
Lemma entry_survives_sweep_at_thirty_minutes :
  Date_now (stateAfter false hangingTransport) = 0 + 30 * 60 * 1000 ∧
  (λ rd, (retryCount rd, createdAt rd))
    <$> pendingEmailRetries (stateAfter false hangingTransport) !! sampleId = Some (1, 0) ∧
  Date_now (stateAfter false hangingTransportSwept) = 0 + 35 * 60 * 1000 ∧
  pendingEmailRetries (stateAfter false hangingTransportSwept) !! sampleId = None.
Proof. repeat split; vm_compute; reflexivity. Qed.

(** C1 as stated fails on every path but the first firing of the cleanup
    timer: the sweeper calls [cleanupFiles] before it deletes the entry,
    and the exhaustion path calls it and leaves the entry (retry count 5)
    in the ledger. *)
Lemma cleanupFiles_called_while_entry_present :
  cleanupsOf sampleId (console (stateAfter false hangingTransportSwept)) = [true] ∧
  cleanupsOf sampleId (console (stateAfter false transportStaysDown)) = [true] ∧
  retryCount <$> pendingEmailRetries (stateAfter false transportStaysDown) !! sampleId
  = Some 5.
Proof. repeat split; vm_compute; reflexivity. Qed.

(** ** Retry Scheduler: the automatic loop *)

Section RetryLoop.
Variable production : bool.
Implicit Types (st : State) (c : Call).

(** Within the budget the delay is read from the table; the clamp of
    index.js:154 is not what produces it. *)
Lemma retryDelayLookup_in_table rc :
  0 ≤ rc < maxRetries EMAIL_RETRY_CONFIG →
  ∃ d, retryDelays EMAIL_RETRY_CONFIG !! Z.to_nat rc = Some d ∧
       retryDelayLookup EMAIL_RETRY_CONFIG rc = (Some d, false) ∧
       timerDelay (Some d) = d ∧ 30000 ≤ d.
Proof.
  simpl. intros Hrc.
  assert (rc = 0 ∨ rc = 1 ∨ rc = 2 ∨ rc = 3 ∨ rc = 4) as Hcases by lia.
  destruct Hcases as [->|[->|[->|[->| ->]]]]; eexists; (split; [reflexivity|]);
    (split; [reflexivity|]); (split; [reflexivity|]); lia.
Qed.

(** A failed attempt of a paid submission with budget left. *)
Lemma settle_failure_schedules fd fs cid pi rc stage message st d :
  0 ≤ rc < maxRetries EMAIL_RETRY_CONFIG →
  retryDelays EMAIL_RETRY_CONFIG !! Z.to_nat rc = Some d →
  sendEmailsWithRetry_settle production (mkCall fd fs cid (Some pi) rc)
                             (SendFailed stage message) st
  = (mkState
       (<[cid := mkRetryData fd fs cid (Some pi) (rc + 1) (Date_now st)
                             (Some (nextTimerId st))]> (pendingEmailRetries st))
       (<[nextTimerId st :=
            (Date_now st + d, RetryCallback (mkCall fd fs cid (Some pi) (rc + 1)))]>
          (timers st))
       (S (nextTimerId st)) (Date_now st) (uploads st) (inflight st)
       (EvRetryScheduled cid (rc + 1) d false :: console st),
     ResWillRetry (rc + 1) (Some d)).
Proof.
  intros Hrc Hd.
  destruct (retryDelayLookup_in_table rc Hrc) as (d' & Hd' & Hlook & Htd & _).
  assert (d' = d) as -> by congruence.
  unfold sendEmailsWithRetry_settle.
  cbn [c_paymentInfo c_retryCount c_files c_clientId c_formData].
  rewrite bool_decide_eq_true_2 by (split; [by eexists|lia]).
  rewrite Hlook, Htd. reflexivity.
Qed.

(** A failed attempt of a paid submission whose budget is used up. *)
Lemma settle_failure_exhausted fd fs cid pi rc stage message st :
  maxRetries EMAIL_RETRY_CONFIG ≤ rc →
  sendEmailsWithRetry_settle production (mkCall fd fs cid (Some pi) rc)
                             (SendFailed stage message) st
  = (if nonEmpty fs then call_cleanupFiles fs cid st else st, ResFailed message).
Proof.
  intros Hrc. unfold sendEmailsWithRetry_settle.
  cbn [c_paymentInfo c_retryCount c_files c_clientId c_formData].
  rewrite bool_decide_eq_false_2 by lia.
  rewrite (bool_decide_eq_true_2 (is_Some (Some pi))) by (by eexists).
  reflexivity.
Qed.

Lemma step_SendDone_head c o out rest st :
  inflight st = (c, o) :: rest →
  step production (SendDone 0 out) st =
    Some (continuation production o c
            (sendEmailsWithRetry_settle production c out (set_inflight rest st)).2
            (sendEmailsWithRetry_settle production c out (set_inflight rest st)).1).
Proof.
  intros Hin. unfold step. rewrite Hin. simpl.
  by destruct (sendEmailsWithRetry_settle production c out (set_inflight rest st)).
Qed.

Lemma step_Tick dt st :
  0 ≤ dt →
  step production (Tick dt) st =
    Some (mkState (pendingEmailRetries st) (timers st) (nextTimerId st)
                  (Date_now st + dt) (uploads st) (inflight st) (console st)).
Proof. intros H. unfold step. by rewrite bool_decide_eq_true_2. Qed.

Lemma step_TimerFire id due cb st :
  timers st !! id = Some (due, cb) → due ≤ Date_now st →
  step production (TimerFire id) st = Some (runCallback production cb (clearTimeout id st)).
Proof. intros Ht Hdue. unfold step. rewrite Ht. by rewrite bool_decide_eq_true_2. Qed.

Lemma run_cons_Some a rest st st' :
  step production a st = Some st' →
  run production (a :: rest) st = run production rest st'.
Proof. intros H. cbn [run]. by rewrite H. Qed.

(** The submission and its first failure. *)
Lemma first_failure_arms_retry fd fs cid pi stage message st :
  ∃ st1,
    run production [Submit fd fs cid (Some pi); SendDone 0 (SendFailed stage message)] st
      = Some st1 ∧
    awaitsRetry st1 (mkCall fd fs cid (Some pi) 1) (Date_now st + 30000) ∧
    console st1 = [EvRetryScheduled cid 1 30000 false; EvAttempt cid 0 (Date_now st)]
                  ++ console st.
Proof.
  eexists. split.
  - erewrite run_cons_Some by reflexivity.
    erewrite run_cons_Some; [reflexivity|].
    erewrite step_SendDone_head by reflexivity.
    rewrite (settle_failure_schedules fd fs cid pi 0 stage message _ 30000)
      by (simpl; done || lia).
    reflexivity.
  - split; [|reflexivity].
    exists (Date_now st), (nextTimerId st). simpl.
    rewrite !lookup_insert_eq. split; [done|]. split; [done|]. lia.
Qed.

(** One round of the loop with budget left: the timer fires when due,
    the attempt fails, and the next retry is armed. *)
Lemma failing_round_rearms fd fs cid pi rc stage message st due d :
  1 ≤ rc < maxRetries EMAIL_RETRY_CONFIG →
  retryDelays EMAIL_RETRY_CONFIG !! Z.to_nat rc = Some d →
  awaitsRetry st (mkCall fd fs cid (Some pi) rc) due →
  ∃ st',
    failingRound production cid stage message st = Some st' ∧
    awaitsRetry st' (mkCall fd fs cid (Some pi) (rc + 1)) (due + d) ∧
    console st' = [EvRetryScheduled cid (rc + 1) d false; EvAttempt cid rc due]
                  ++ console st.
Proof.
  intros Hrc Hd (t & n & Hentry & Htimer & Hdue). simpl in Hentry.
  unfold failingRound. rewrite Hentry. simpl timeoutId. cbv iota beta. rewrite Htimer.
  eexists. split.
  - erewrite run_cons_Some by (apply step_Tick; lia).
    erewrite run_cons_Some by (eapply step_TimerFire; [exact Htimer | simpl; lia]).
    erewrite run_cons_Some; [reflexivity|].
    erewrite step_SendDone_head by reflexivity.
    rewrite (settle_failure_schedules fd fs cid pi rc stage message _ d) by (done || lia).
    reflexivity.
  - split.
    + exists (Date_now st + Z.max 0 (due - Date_now st)), (nextTimerId st). simpl.
      rewrite !lookup_insert_eq.
      split; [done|]. split; [do 2 f_equal; lia|].
      destruct (retryDelayLookup_in_table rc) as (d' & Hd' & _ & _ & Hpos); [lia|].
      assert (d' = d) as -> by congruence. lia.
    + simpl. do 3 f_equal. lia.
Qed.

(** The last round: the attempt with the budget used up fails, nothing
    is armed any more, and the loop has nothing left to fire. *)
Lemma failing_round_exhausts fd fs cid pi stage message st due :
  awaitsRetry st (mkCall fd fs cid (Some pi) 5) due →
  ∃ st' new,
    failingRound production cid stage message st = Some st' ∧
    failingRound production cid stage message st' = None ∧
    console st' = new ++ [EvAttempt cid 5 due] ++ console st ∧
    attemptsOf cid new = [] ∧ delaysOf cid new = [].
Proof.
  intros (t & n & Hentry & Htimer & Hdue). simpl in Hentry.
  unfold failingRound at 1. rewrite Hentry. simpl timeoutId. cbv iota beta. rewrite Htimer.
  erewrite run_cons_Some by (apply step_Tick; lia).
  erewrite run_cons_Some by (eapply step_TimerFire; [exact Htimer | simpl; lia]).
  erewrite run_cons_Some
    by (erewrite step_SendDone_head by reflexivity;
        rewrite settle_failure_exhausted by (simpl; lia); reflexivity).
  cbn [run fst snd continuation runCallback].
  destruct (nonEmpty fs).
  - match goal with |- context [call_cleanupFiles fs cid ?s] =>
      destruct (call_cleanupFiles_fields fs cid s) as (r & Hc & _ & Hl & Ht & _);
      exists (call_cleanupFiles fs cid s),
             [EvCleanupFiles cid fs (bool_decide (is_Some (pendingEmailRetries s !! cid))) r]
    end.
    split; [done|]. split.
    + unfold failingRound. rewrite Hl. simpl pendingEmailRetries. rewrite Hentry.
      simpl timeoutId. cbv iota beta. rewrite Ht. simpl timers.
      by rewrite lookup_delete_eq.
    + split; [|done]. rewrite Hc. simpl. do 3 f_equal. lia.
  - eexists _, []. split; [done|]. split.
    + unfold failingRound. simpl pendingEmailRetries. rewrite Hentry.
      simpl timeoutId. cbv iota beta. simpl timers. by rewrite lookup_delete_eq.
    + split; [|done]. simpl. do 2 f_equal. lia.
Qed.

Lemma failingLoop_done cid stage message fuel st :
  failingRound production cid stage message st = None →
  failingLoop production cid stage message fuel st = st.
Proof. intros H. destruct fuel; simpl; [done|]. by rewrite H. Qed.

Lemma attemptsOf_app cid (l1 l2 : list Event) :
  attemptsOf cid (l1 ++ l2) = attemptsOf cid l1 ++ attemptsOf cid l2.
Proof. apply omap_app. Qed.

Lemma delaysOf_app cid (l1 l2 : list Event) :
  delaysOf cid (l1 ++ l2) = delaysOf cid l1 ++ delaysOf cid l2.
Proof. apply omap_app. Qed.

(** C3: for a paid submission whose every attempt fails, the automatic
    loop makes exactly [maxRetries + 1 = 6] attempts, numbered 0 to 5,
    and then stops (no timer is left for the identity, however much
    fuel remains); retry n is scheduled with the n-th delay of the table
    and is sent exactly that long after the failure before it, i.e. at
    30 s, 90 s, 210 s, 510 s and 1110 s after the first attempt.  The
    console is newest first, hence the [rev]. *)
Theorem transport_down_makes_six_attempts fd fs cid pi stage message extra st :
  ∃ st' new,
    paidSubmissionTransportDown production fd fs cid pi stage message (5 + extra) st
      = Some st' ∧
    console st' = new ++ console st ∧
    rev (attemptsOf cid new) =
      [(0, Date_now st); (1, Date_now st + 30000); (2, Date_now st + 90000);
       (3, Date_now st + 210000); (4, Date_now st + 510000);
       (5, Date_now st + 1110000)] ∧
    Z.of_nat (length (attemptsOf cid new)) = maxRetries EMAIL_RETRY_CONFIG + 1 ∧
    rev (delaysOf cid new) = retryDelays EMAIL_RETRY_CONFIG ∧
    failingRound production cid stage message st' = None.
Proof.
  destruct (first_failure_arms_retry fd fs cid pi stage message st)
    as (st1 & Hrun & Hw1 & Hc1).
  destruct (failing_round_rearms fd fs cid pi 1 stage message st1 _ 60000
              ltac:(simpl; lia) eq_refl Hw1) as (st2 & Hr2 & Hw2 & Hc2).
  destruct (failing_round_rearms fd fs cid pi 2 stage message st2 _ 120000
              ltac:(simpl; lia) eq_refl Hw2) as (st3 & Hr3 & Hw3 & Hc3).
  destruct (failing_round_rearms fd fs cid pi 3 stage message st3 _ 300000
              ltac:(simpl; lia) eq_refl Hw3) as (st4 & Hr4 & Hw4 & Hc4).
  destruct (failing_round_rearms fd fs cid pi 4 stage message st4 _ 600000
              ltac:(simpl; lia) eq_refl Hw4) as (st5 & Hr5 & Hw5 & Hc5).
  destruct (failing_round_exhausts fd fs cid pi stage message st5 _ Hw5)
    as (st6 & new & Hr6 & Hend & Hc6 & Hna & Hnd).
  exists st6.
  exists (new ++ [EvAttempt cid 5 (Date_now st + 30000 + 60000 + 120000 + 300000 + 600000);
                  EvRetryScheduled cid 5 600000 false;
                  EvAttempt cid 4 (Date_now st + 30000 + 60000 + 120000 + 300000);
                  EvRetryScheduled cid 4 300000 false;
                  EvAttempt cid 3 (Date_now st + 30000 + 60000 + 120000);
                  EvRetryScheduled cid 3 120000 false;
                  EvAttempt cid 2 (Date_now st + 30000 + 60000);
                  EvRetryScheduled cid 2 60000 false;
                  EvAttempt cid 1 (Date_now st + 30000);
                  EvRetryScheduled cid 1 30000 false;
                  EvAttempt cid 0 (Date_now st)]).
  split.
  { unfold paidSubmissionTransportDown. rewrite Hrun.
    change (5 + extra)%nat with (S (S (S (S (S extra))))).
    cbn [failingLoop]. rewrite Hr2, Hr3, Hr4, Hr5, Hr6.
    by rewrite failingLoop_done. }
  split.
  { rewrite Hc6, Hc5, Hc4, Hc3, Hc2, Hc1. rewrite <- !app_assoc. reflexivity. }
  rewrite attemptsOf_app, delaysOf_app, Hna, Hnd. simpl.
  rewrite !(bool_decide_eq_true_2 (cid = cid)) by done. simpl.
  split; [|done].
  repeat match goal with
         | |- _ :: _ = _ :: _ => f_equal
         | |- (_, _) = (_, _) => f_equal
         end; lia.
Qed.
End RetryLoop.

(** ** Retry counts over every reachable state *)

Section Counts.
Variable production : bool.
Implicit Types (st : State) (c : Call).

Lemma countsInRange_boot boot disk : countsInRange (initialState boot disk).
Proof.
  constructor; simpl.
  - intros cid rd H. by rewrite lookup_empty in H.
  - intros id due c H. by rewrite lookup_empty in H.
  - intros c o H. by apply elem_of_nil in H.
  - intros e H. by apply elem_of_nil in H.
Qed.

(** The invariant only reads four components of the state. *)
Lemma countsInRange_same st st' :
  pendingEmailRetries st' = pendingEmailRetries st → timers st' = timers st →
  inflight st' = inflight st → console st' = console st →
  countsInRange st → countsInRange st'.
Proof.
  intros Hl Ht Hi Hc [He Htm Hin Hco].
  constructor; rewrite ?Hl, ?Ht, ?Hi, ?Hc; done.
Qed.

Lemma countsInRange_log e st :
  clampUsed e = false → countsInRange st → countsInRange (log e st).
Proof.
  intros He [H1 H2 H3 H4]. constructor; simpl; try done.
  intros e' [->|?]%elem_of_cons; auto.
Qed.

Lemma countsInRange_call_cleanupFiles fs cid st :
  countsInRange st → countsInRange (call_cleanupFiles fs cid st).
Proof.
  intros H. unfold call_cleanupFiles.
  destruct (cleanupFiles fs cid (uploads st)) as [disk r].
  apply countsInRange_log; [done|].
  by apply (countsInRange_same st).
Qed.

Lemma countsInRange_setTimeout cb delay st :
  (∀ c, cb = RetryCallback c → 1 ≤ c_retryCount c ≤ 5) →
  countsInRange st → countsInRange (setTimeout cb delay st).2.
Proof.
  intros Hcb [H1 H2 H3 H4]. constructor; simpl; try done.
  intros id due c. destruct (decide (nextTimerId st = id)) as [->|Hne].
  - rewrite lookup_insert_eq. intros [= _ ->]. by apply Hcb.
  - rewrite lookup_insert_ne by done. apply H2.
Qed.

Lemma countsInRange_clearTimeout id st :
  countsInRange st → countsInRange (clearTimeout id st).
Proof.
  intros [H1 H2 H3 H4]. constructor; simpl; try done.
  intros id' due c. rewrite lookup_delete_Some. intros [_ ?]. eauto.
Qed.

Lemma countsInRange_clearTimeoutOf rd st :
  countsInRange st → countsInRange (clearTimeoutOf rd st).
Proof.
  unfold clearTimeoutOf. destruct (timeoutId rd); [apply countsInRange_clearTimeout|done].
Qed.

Lemma countsInRange_delete_entry cid st :
  countsInRange st →
  countsInRange (set_ledger (delete cid (pendingEmailRetries st)) st).
Proof.
  intros [H1 H2 H3 H4]. constructor; simpl; try done.
  intros cid' rd. rewrite lookup_delete_Some. intros [_ ?]. eauto.
Qed.

Lemma countsInRange_set_inflight l st :
  (∀ c o, (c, o) ∈ l → 0 ≤ c_retryCount c ≤ 5) →
  countsInRange st → countsInRange (set_inflight l st).
Proof. intros Hl [H1 H2 H3 H4]. by constructor. Qed.

Lemma countsInRange_start c o st :
  0 ≤ c_retryCount c ≤ 5 →
  countsInRange st → countsInRange (sendEmailsWithRetry_start c o st).
Proof.
  intros Hc H. unfold sendEmailsWithRetry_start.
  apply countsInRange_set_inflight.
  - intros c' o' [[= -> ->]|Hin]%elem_of_cons; [done|].
    destruct H as [_ _ H3 _]. by apply (H3 c' o').
  - by apply countsInRange_log.
Qed.

Lemma countsInRange_scheduleFileCleanup fs cid st :
  countsInRange st → countsInRange (scheduleFileCleanup production fs cid st).
Proof. intros H. unfold scheduleFileCleanup. by apply countsInRange_setTimeout. Qed.

Lemma countsInRange_settle c o st :
  0 ≤ c_retryCount c ≤ 5 →
  countsInRange st → countsInRange (sendEmailsWithRetry_settle production c o st).1.
Proof.
  intros Hc H. unfold sendEmailsWithRetry_settle. destruct o as [|stage message].
  - destruct (pendingEmailRetries st !! c_clientId c) as [rd|]; [|done]. simpl.
    assert (countsInRange
              (set_ledger (delete (c_clientId c) (pendingEmailRetries (clearTimeoutOf rd st)))
                          (clearTimeoutOf rd st))) as H'
      by (by apply countsInRange_delete_entry, countsInRange_clearTimeoutOf).
    destruct (nonEmpty (c_files c)); [|done].
    by apply countsInRange_scheduleFileCleanup.
  - case_bool_decide as Hbudget.
    + destruct Hbudget as [_ Hlt].
      destruct (retryDelayLookup_in_table (c_retryCount c)) as (d & _ & -> & -> & _);
        [lia|].
      simpl. simpl in Hlt.
      destruct H as [H1 H2 H3 H4]. constructor; simpl.
      * intros cid rd. destruct (decide (c_clientId c = cid)) as [->|Hne].
        -- rewrite lookup_insert_eq. intros [= <-]. simpl. lia.
        -- rewrite lookup_insert_ne by done. apply H1.
      * intros id due c'. destruct (decide (nextTimerId st = id)) as [->|Hne].
        -- rewrite lookup_insert_eq. intros [= _ <-]. simpl. lia.
        -- rewrite lookup_insert_ne by done. apply H2.
      * done.
      * intros e [->|?]%elem_of_cons; auto.
    + simpl. destruct (bool_decide (is_Some (c_paymentInfo c)) && nonEmpty (c_files c));
        [|done].
      by apply countsInRange_call_cleanupFiles.
Qed.

Lemma countsInRange_continuation o c r st :
  countsInRange st → countsInRange (continuation production o c r st).
Proof.
  intros H. destruct o; simpl; try done.
  unfold submitContinuation. destruct r.
  - destruct (nonEmpty (c_files c)); [|done]. by apply countsInRange_scheduleFileCleanup.
  - destruct (bool_decide (is_Some (c_paymentInfo c))); [done|].
    by apply (countsInRange_same st).
  - by apply (countsInRange_same st).
Qed.

Lemma countsInRange_sweep st : countsInRange st → countsInRange (cleanupOldRetries st).
Proof.
  intros [H1 H2 H3 H4]. unfold cleanupOldRetries.
  set (l := expiredEntries (Date_now st) (pendingEmailRetries st)).
  constructor.
  - intros cid rd. rewrite purge_all_ledger. case_bool_decide; [done|]. apply H1.
  - intros id due c Hid. apply purge_all_timers_sub in Hid. eauto.
  - destruct (purge_all_frame l st) as (_ & -> & _). done.
  - destruct (purge_all_console l st) as (new & -> & Hnew).
    intros e [He|He]%elem_of_app; [|auto].
    by destruct (Hnew e He) as (k & rd & r & -> & _).
Qed.

Lemma countsInRange_step a st st' :
  step production a st = Some st' → countsInRange st → countsInRange st'.
Proof.
  intros Hstep H. destruct a as [dt|fd fs cid pi|i o|id| |cid|fs cid]; simpl in Hstep.
  - case_bool_decide; [|done]. injection Hstep as <-. by apply (countsInRange_same st).
  - injection Hstep as <-. apply countsInRange_start; [simpl; lia|done].
  - destruct (inflight st !! i) as [[c origin]|] eqn:Hi; [|done].
    destruct (sendEmailsWithRetry_settle production c o
                (set_inflight (delete i (inflight st)) st)) as [st2 r] eqn:Hsettle.
    injection Hstep as <-. apply countsInRange_continuation.
    change st2 with (st2, r).1. rewrite <- Hsettle.
    assert (0 ≤ c_retryCount c ≤ 5) as Hc.
    { destruct H as [_ _ H3 _]. apply (H3 c origin).
      apply list_elem_of_lookup. by exists i. }
    apply countsInRange_settle; [done|].
    apply countsInRange_set_inflight; [|done].
    intros c' o' Hin. destruct H as [_ _ H3 _]. apply (H3 c' o').
    by eapply list_elem_of_delete_inv.
  - destruct (timers st !! id) as [[due cb]|] eqn:Hid; [|done].
    case_bool_decide; [|done]. injection Hstep as <-.
    pose proof (countsInRange_clearTimeout id st H) as H'.
    destruct cb as [c|fs cid|fs cid]; simpl.
    + apply countsInRange_start; [|done].
      destruct H as [_ H2 _ _]. specialize (H2 id due c Hid). lia.
    + unfold cleanupCheck. case_bool_decide.
      * by apply countsInRange_setTimeout.
      * by apply countsInRange_call_cleanupFiles.
    + by apply countsInRange_call_cleanupFiles.
  - injection Hstep as <-. by apply countsInRange_sweep.
  - injection Hstep as <-. unfold manualRetry.
    case_bool_decide; [done|].
    destruct (pendingEmailRetries st !! cid) as [rd|] eqn:Hrd; [|done].
    apply countsInRange_start.
    + simpl. destruct H as [H1 _ _ _]. specialize (H1 cid rd Hrd). lia.
    + by apply countsInRange_clearTimeoutOf.
  - injection Hstep as <-. unfold testCleanup.
    destruct production; [done|]. destruct (nonEmpty fs); [|done].
    by apply countsInRange_setTimeout.
Qed.

Lemma reachable_countsInRange st : reachable production st → countsInRange st.
Proof.
  induction 1 as [boot disk|st a st' _ IH Hstep].
  - apply countsInRange_boot.
  - by apply (countsInRange_step a st).
Qed.

Lemma run_reachable acts : ∀ st st',
  reachable production st → run production acts st = Some st' →
  reachable production st'.
Proof.
  induction acts as [|a acts IH]; intros st st' Hst Hrun; simpl in Hrun.
  - by injection Hrun as <-.
  - destruct (step production a st) as [st1|] eqn:Hstep; [|done].
    apply (IH st1); [|done]. by apply (reachable_step production st a).
Qed.

(** C10: in every state the server can reach, each ledger entry carries
    a retry count between 1 and 5 (never 0), the count of each armed
    retry and of each suspended call stays within 0..5, and no retry
    was ever scheduled with a delay produced by the clamp of
    index.js:154: the index was inside the five-element table each
    time. *)
Theorem retry_counts_stay_in_range st :
  reachable production st →
  (∀ cid rd, pendingEmailRetries st !! cid = Some rd → 1 ≤ retryCount rd ≤ 5) ∧
  (∀ id due c, timers st !! id = Some (due, RetryCallback c) → 1 ≤ c_retryCount c ≤ 5) ∧
  (∀ c o, (c, o) ∈ inflight st → 0 ≤ c_retryCount c ≤ 5) ∧
  (∀ e, e ∈ console st → clampUsed e = false).
Proof. intros H. by destruct (reachable_countsInRange st H). Qed.
End Counts.

Lemma retry_counts_stay_in_range_witness :
  (∀ cid rd, pendingEmailRetries (stateAfter false transportStaysDown) !! cid = Some rd →
             1 ≤ retryCount rd ≤ 5) ∧
  (∀ id due c, timers (stateAfter false transportStaysDown) !! id
               = Some (due, RetryCallback c) → 1 ≤ c_retryCount c ≤ 5) ∧
  (∀ c o, (c, o) ∈ inflight (stateAfter false transportStaysDown) →
          0 ≤ c_retryCount c ≤ 5) ∧
  (∀ e, e ∈ console (stateAfter false transportStaysDown) → clampUsed e = false).
Proof.
  apply (retry_counts_stay_in_range false (stateAfter false transportStaysDown)).
  apply (run_reachable false transportStaysDown (initialState 0 sampleDisk)).
  - apply reachable_boot.
  - vm_compute. reflexivity.
Defined.

(** The count an entry stores is the attempt index its timer will run. *)
Lemma stored_count_is_next_attempt production fd fs cid pi rc stage message st st' :
  0 ≤ rc < maxRetries EMAIL_RETRY_CONFIG →
  (sendEmailsWithRetry_settle production (mkCall fd fs cid (Some pi) rc)
                              (SendFailed stage message) st).1 = st' →
  ∃ rd id due c,
    pendingEmailRetries st' !! cid = Some rd ∧ timeoutId rd = Some id ∧
    timers st' !! id = Some (due, RetryCallback c) ∧
    c_retryCount c = retryCount rd ∧ retryCount rd = rc + 1.
Proof.
  intros Hrc <-.
  destruct (retryDelayLookup_in_table rc Hrc) as (d & Hd & _).
  rewrite (settle_failure_schedules production fd fs cid pi rc stage message st d Hrc Hd).
  simpl. eexists _, _, _, _. rewrite !lookup_insert_eq. eauto.
Qed.

(** ** At most one timer per identity

    C7 does not hold of the code.  The success path, the sweeper and the
    manual retry handler clear the entry's timer before they remove the
    entry or start over; the failure path (index.js:159-175) replaces the
    entry without clearing the timer of the entry it overwrites.  When two
    attempts for one identity overlap and both fail, the second failure
    leaves the timer of the first armed: here two manual retries are
    requested back to back and the transport refuses both. *)
Theorem overlapping_failures_arm_two_timers :
  ∃ st,
    run false overlappingManualRetries (initialState 0 sampleDisk) = Some st ∧
    reachable false st ∧
    armedRetryTimers sampleId st = [2%nat; 1%nat] ∧
    (timeoutId <$> pendingEmailRetries st !! sampleId) = Some (Some 2%nat) ∧
    (fst <$> timers st !! 1%nat) = Some 65000 ∧
    (fst <$> timers st !! 2%nat) = Some 65000.
Proof.
  eexists. split; [vm_compute; reflexivity|]. split.
  - apply (run_reachable false overlappingManualRetries (initialState 0 sampleDisk)).
    + apply reachable_boot.
    + vm_compute. reflexivity.
  - repeat split; vm_compute; reflexivity.
Qed.

(** * Further properties of the coordinator *)

(** ** The sweeper as a filter *)

Section SweeperMore.
Implicit Types (st : State) (cid k : string) (rd : RetryData).

Lemma expiredEntries_nil now (m : gmap string RetryData) :
(∀ k rd, m !! k = Some rd → expired now rd = false) → expiredEntries now m = [].
Proof.
intros Hnone. destruct (expiredEntries now m) as [|k l] eqn:Hl; [done|].
assert (k ∈ expiredEntries now m) as Hin by (rewrite Hl; by left).
apply expiredEntries_spec in Hin as (rd & Hk & Hexp).
rewrite (Hnone k rd Hk) in Hexp. discriminate.
Qed.

(** After a sweep the ledger is the old ledger without its expired
    entries: what is at most 30 minutes old stays, untouched, and nothing
    older is left. *)
Theorem sweep_keeps_exactly_the_young st :
pendingEmailRetries (cleanupOldRetries st)
= filter (λ kv, expired (Date_now st) kv.2 = false) (pendingEmailRetries st).
Proof.
apply map_eq. intros k. unfold cleanupOldRetries. rewrite purge_all_ledger.
apply option_eq. intros rd. rewrite map_lookup_filter_Some. simpl.
case_bool_decide as Hin.
- split; [done|]. intros [Hk Hyoung].
  apply expiredEntries_spec in Hin as (rd' & Hk' & Hexp). congruence.
- split; [|by intros [? _]]. intros Hk. split; [done|].
  destruct (expired (Date_now st) rd) eqn:Hexp; [|done].
  exfalso. apply Hin. apply expiredEntries_spec. by exists rd.
Qed.

Lemma sweep_nothing_expired st :
(∀ k rd, pendingEmailRetries st !! k = Some rd → expired (Date_now st) rd = false) →
cleanupOldRetries st = st.
Proof. intros H. unfold cleanupOldRetries. by rewrite expiredEntries_nil. Qed.

(** A second sweep at the same instant does nothing: no timer is cleared,
    no file is deleted and no line is logged again. *)
Theorem sweep_twice_is_sweep_once st :
cleanupOldRetries (cleanupOldRetries st) = cleanupOldRetries st.
Proof.
apply sweep_nothing_expired. intros k rd.
assert (Date_now (cleanupOldRetries st) = Date_now st) as ->.
{ unfold cleanupOldRetries. by destruct (purge_all_frame
    (expiredEntries (Date_now st) (pendingEmailRetries st)) st) as (-> & _). }
unfold cleanupOldRetries at 1. rewrite purge_all_ledger.
case_bool_decide as Hin; [done|]. intros Hk.
destruct (expired (Date_now st) rd) eqn:Hexp; [|done].
exfalso. apply Hin. apply expiredEntries_spec. by exists rd.
Qed.
End SweeperMore.

(** ** Shape of the ledger in every reachable state *)

Section WellFormed.
Variable production : bool.
Implicit Types (st : State) (c : Call).

Lemma ledgerWellFormed_boot boot disk : ledgerWellFormed (initialState boot disk).
Proof.
constructor; simpl; intros *; rewrite ?lookup_empty; done.
Qed.

Lemma ledgerWellFormed_same st st' :
pendingEmailRetries st' = pendingEmailRetries st → timers st' = timers st →
nextTimerId st' = nextTimerId st →
ledgerWellFormed st → ledgerWellFormed st'.
Proof.
intros Hl Ht Hn [H1 H2 H3 H4 H5].
constructor; rewrite ?Hl, ?Ht, ?Hn; done.
Qed.

Lemma ledgerWellFormed_log e st : ledgerWellFormed st → ledgerWellFormed (log e st).
Proof. by apply ledgerWellFormed_same. Qed.

Lemma ledgerWellFormed_call_cleanupFiles fs cid st :
ledgerWellFormed st → ledgerWellFormed (call_cleanupFiles fs cid st).
Proof.
destruct (call_cleanupFiles_fields fs cid st) as (_ & _ & _ & Hl & Ht & Hn & _).
by apply ledgerWellFormed_same.
Qed.

Lemma ledgerWellFormed_start c o st :
ledgerWellFormed st → ledgerWellFormed (sendEmailsWithRetry_start c o st).
Proof. by apply ledgerWellFormed_same. Qed.

Lemma ledgerWellFormed_setTimeout cb delay st :
ledgerWellFormed st → ledgerWellFormed (setTimeout cb delay st).2.
Proof.
intros [H1 H2 H3 H4 H5]. constructor; simpl; try done.
- intros cid rd Hrd. destruct (H3 cid rd Hrd) as (id & Hid & Hlt).
  exists id. split; [done|lia].
- intros id x. destruct (decide (nextTimerId st = id)) as [<-|Hne].
  + intros _. lia.
  + rewrite lookup_insert_ne by done. intros Hx. specialize (H4 id x Hx). lia.
- intros cid rd id due cb' Hrd Hid.
  destruct (H3 cid rd Hrd) as (id' & Hid' & Hlt).
  assert (id' = id) as -> by congruence.
  rewrite lookup_insert_ne by lia. by apply (H5 cid).
Qed.

Lemma ledgerWellFormed_clearTimeout id st :
ledgerWellFormed st → ledgerWellFormed (clearTimeout id st).
Proof.
intros [H1 H2 H3 H4 H5]. constructor; simpl; try done.
- intros id' x. rewrite lookup_delete_Some. intros [_ ?]. eauto.
- intros cid rd id' due cb Hrd Hid. rewrite lookup_delete_Some. intros [_ ?]. eauto.
Qed.

Lemma ledgerWellFormed_clearTimeoutOf rd st :
ledgerWellFormed st → ledgerWellFormed (clearTimeoutOf rd st).
Proof.
unfold clearTimeoutOf. destruct (timeoutId rd); [apply ledgerWellFormed_clearTimeout|done].
Qed.

Lemma ledgerWellFormed_delete_entry cid st :
ledgerWellFormed st →
ledgerWellFormed (set_ledger (delete cid (pendingEmailRetries st)) st).
Proof.
intros [H1 H2 H3 H4 H5]. constructor; simpl; try done.
- intros k rd. rewrite lookup_delete_Some. intros [_ ?]. eauto.
- intros k rd. rewrite lookup_delete_Some. intros [_ ?]. eauto.
- intros k rd. rewrite lookup_delete_Some. intros [_ ?]. eauto.
- intros k rd id due cb. rewrite lookup_delete_Some. intros [_ ?]. eauto.
Qed.

Lemma ledgerWellFormed_scheduleFileCleanup fs cid st :
ledgerWellFormed st → ledgerWellFormed (scheduleFileCleanup production fs cid st).
Proof. apply ledgerWellFormed_setTimeout. Qed.

Lemma ledgerWellFormed_settle c o st :
ledgerWellFormed st →
ledgerWellFormed (sendEmailsWithRetry_settle production c o st).1.
Proof.
intros H. unfold sendEmailsWithRetry_settle. destruct o as [|stage message].
- destruct (pendingEmailRetries st !! c_clientId c) as [rd|]; [|done]. simpl.
  assert (ledgerWellFormed
            (set_ledger (delete (c_clientId c) (pendingEmailRetries (clearTimeoutOf rd st)))
                        (clearTimeoutOf rd st))) as H'
    by (by apply ledgerWellFormed_delete_entry, ledgerWellFormed_clearTimeoutOf).
  destruct (nonEmpty (c_files c)); [|done].
  by apply ledgerWellFormed_scheduleFileCleanup.
- case_bool_decide as Hbudget.
  + destruct Hbudget as [Hpaid _].
    destruct (retryDelayLookup EMAIL_RETRY_CONFIG (c_retryCount c)) as [d clamped].
    simpl. destruct H as [H1 H2 H3 H4 H5]. constructor; simpl.
    * intros cid rd. destruct (decide (c_clientId c = cid)) as [->|Hne].
      -- rewrite lookup_insert_eq. by intros [= <-].
      -- rewrite lookup_insert_ne by done. apply H1.
    * intros cid rd. destruct (decide (c_clientId c = cid)) as [->|Hne].
      -- rewrite lookup_insert_eq. by intros [= <-].
      -- rewrite lookup_insert_ne by done. apply H2.
    * intros cid rd. destruct (decide (c_clientId c = cid)) as [->|Hne].
      -- rewrite lookup_insert_eq. intros [= <-]. simpl. eexists. split; [done|lia].
      -- rewrite lookup_insert_ne by done. intros Hrd.
         destruct (H3 cid rd Hrd) as (id & Hid & Hlt). exists id. split; [done|lia].
    * intros id x. destruct (decide (nextTimerId st = id)) as [<-|Hne].
      -- intros _. lia.
      -- rewrite lookup_insert_ne by done. intros Hx. specialize (H4 id x Hx). lia.
    * intros cid rd id due cb. destruct (decide (c_clientId c = cid)) as [->|Hne].
      -- rewrite lookup_insert_eq. intros [= <-]. simpl. intros [= <-].
         rewrite lookup_insert_eq. by intros [= _ <-].
      -- rewrite lookup_insert_ne by done. intros Hrd Hid.
         destruct (H3 cid rd Hrd) as (id' & Hid' & Hlt).
         assert (id' = id) as -> by congruence.
         rewrite lookup_insert_ne by lia. by apply (H5 cid).
  + simpl. destruct (bool_decide (is_Some (c_paymentInfo c)) && nonEmpty (c_files c));
      [|done].
    by apply ledgerWellFormed_call_cleanupFiles.
Qed.

Lemma ledgerWellFormed_continuation o c r st :
ledgerWellFormed st → ledgerWellFormed (continuation production o c r st).
Proof.
intros H. destruct o; simpl; try done.
unfold submitContinuation. destruct r.
- destruct (nonEmpty (c_files c)); [|done]. by apply ledgerWellFormed_scheduleFileCleanup.
- destruct (bool_decide (is_Some (c_paymentInfo c))); [done|].
  by apply (ledgerWellFormed_same st).
- by apply (ledgerWellFormed_same st).
Qed.

Lemma ledgerWellFormed_sweep st :
ledgerWellFormed st → ledgerWellFormed (cleanupOldRetries st).
Proof.
intros [H1 H2 H3 H4 H5]. unfold cleanupOldRetries.
set (l := expiredEntries (Date_now st) (pendingEmailRetries st)).
destruct (purge_all_frame l st) as (_ & _ & Hn).
constructor; rewrite ?Hn.
- intros cid rd. rewrite purge_all_ledger. case_bool_decide; [done|]. apply H1.
- intros cid rd. rewrite purge_all_ledger. case_bool_decide; [done|]. apply H2.
- intros cid rd. rewrite purge_all_ledger. case_bool_decide; [done|]. apply H3.
- intros id x Hx. apply purge_all_timers_sub in Hx. eauto.
- intros cid rd id due cb. rewrite purge_all_ledger. case_bool_decide; [done|].
  intros Hrd Hid Hx. apply purge_all_timers_sub in Hx. eauto.
Qed.

Lemma ledgerWellFormed_step a st st' :
step production a st = Some st' → ledgerWellFormed st → ledgerWellFormed st'.
Proof.
intros Hstep H. destruct a as [dt|fd fs cid pi|i o|id| |cid|fs cid]; simpl in Hstep.
- case_bool_decide; [|done]. injection Hstep as <-. by apply (ledgerWellFormed_same st).
- injection Hstep as <-. by apply ledgerWellFormed_start.
- destruct (inflight st !! i) as [[c origin]|] eqn:Hi; [|done].
  destruct (sendEmailsWithRetry_settle production c o
              (set_inflight (delete i (inflight st)) st)) as [st2 r] eqn:Hsettle.
  injection Hstep as <-. apply ledgerWellFormed_continuation.
  change st2 with (st2, r).1. rewrite <- Hsettle.
  apply ledgerWellFormed_settle. by apply (ledgerWellFormed_same st).
- destruct (timers st !! id) as [[due cb]|] eqn:Hid; [|done].
  case_bool_decide; [|done]. injection Hstep as <-.
  pose proof (ledgerWellFormed_clearTimeout id st H) as H'.
  destruct cb as [c|fs cid|fs cid]; simpl.
  + by apply ledgerWellFormed_start.
  + unfold cleanupCheck. case_bool_decide.
    * by apply ledgerWellFormed_setTimeout.
    * by apply ledgerWellFormed_call_cleanupFiles.
  + by apply ledgerWellFormed_call_cleanupFiles.
- injection Hstep as <-. by apply ledgerWellFormed_sweep.
- injection Hstep as <-. unfold manualRetry.
  case_bool_decide; [done|].
  destruct (pendingEmailRetries st !! cid) as [rd|] eqn:Hrd; [|done].
  by apply ledgerWellFormed_start, ledgerWellFormed_clearTimeoutOf.
- injection Hstep as <-. unfold testCleanup.
  destruct production; [done|]. destruct (nonEmpty fs); [|done].
  by apply ledgerWellFormed_setTimeout.
Qed.

Lemma reachable_ledgerWellFormed st : reachable production st → ledgerWellFormed st.
Proof.
induction 1 as [boot disk|st a st' _ IH Hstep].
- apply ledgerWellFormed_boot.
- by apply (ledgerWellFormed_step a st).
Qed.

(** Only paid submissions are ever in the ledger: in every reachable
    state each entry carries payment data, sits under its own identity
    and holds a timer handle (never null) that [setTimeout] has handed
    out. *)
Theorem ledger_entries_are_paid_and_keyed st cid rd :
reachable production st →
pendingEmailRetries st !! cid = Some rd →
clientId rd = cid ∧ is_Some (paymentInfo rd) ∧
∃ id, timeoutId rd = Some id ∧ (id < nextTimerId st)%nat.
Proof.
intros Hreach Hrd. destruct (reachable_ledgerWellFormed st Hreach) as [H1 H2 H3 _ _].
split; [by apply H1|]. split; [by apply (H2 cid)|]. by apply (H3 cid).
Qed.

(** In every reachable state, if the timer an entry holds is still armed,
    it is the retry of that very entry: firing it calls
    [sendEmailsWithRetry] with the entry's form data, files, identity,
    payment data and retry count.  Handles are never reused, so the slot
    cannot have been taken by another timer. *)
Theorem entry_timer_retries_the_entry st cid rd id due cb :
reachable production st →
pendingEmailRetries st !! cid = Some rd → timeoutId rd = Some id →
timers st !! id = Some (due, cb) →
runCallback production cb (clearTimeout id st)
= sendEmailsWithRetry_start
    (mkCall (formData rd) (files rd) cid (paymentInfo rd) (retryCount rd))
    FromTimer (clearTimeout id st).
Proof.
intros Hreach Hrd Hid Hcb.
destruct (reachable_ledgerWellFormed st Hreach) as [H1 _ _ _ H5].
rewrite (H5 cid rd id due cb Hrd Hid Hcb). simpl. by rewrite (H1 cid rd Hrd).
Qed.
End WellFormed.

(** ** The delay table at and beyond its bounds *)

Lemma retryDelayLookup_out_of_table rc :
rc < 0 ∨ 5 ≤ rc → retryDelayLookup EMAIL_RETRY_CONFIG rc = (Some 600000, true).
Proof.
intros Hrc. unfold retryDelayLookup, js_index. simpl retryDelays.
destruct (decide (0 ≤ rc)) as [Hpos|Hneg].
- rewrite (bool_decide_eq_true_2 _ Hpos).
  assert ([30000; 60000; 120000; 300000; 600000] !! Z.to_nat rc = None) as ->
    by (apply lookup_ge_None; simpl; lia).
  reflexivity.
- rewrite (bool_decide_eq_false_2 _ Hneg). reflexivity.
Qed.

Lemma timerDelay_bounds rc :
30000 ≤ timerDelay (retryDelayLookup EMAIL_RETRY_CONFIG rc).1 ≤ 600000.
Proof.
destruct (decide (0 ≤ rc < 5)) as [Hin|Hnot].
- destruct (retryDelayLookup_in_table rc Hin) as (d & Hd & Hl & Htd & Hlow).
  rewrite Hl. cbn [fst]. rewrite Htd. split; [done|].
  assert (rc = 0 ∨ rc = 1 ∨ rc = 2 ∨ rc = 3 ∨ rc = 4) as Hcases by lia.
  destruct Hcases as [->|[->|[->|[->| ->]]]]; simpl in Hd; injection Hd as <-; lia.
- rewrite retryDelayLookup_out_of_table by lia. simpl. lia.
Qed.

(** Whatever retry count it is given, the delay expression of
    index.js:154 yields a number of the table: the element at the count
    when the count is an index of the table, and the last element, 10
    minutes, with the clamp taken, when it is not (negative, or 5 and
    beyond).  So a retry is never armed less than 30 s or more than
    10 min ahead. *)
Theorem retry_delay_is_clamped_to_table rc :
(0 ≤ rc < 5 →
   ∃ d, retryDelays EMAIL_RETRY_CONFIG !! Z.to_nat rc = Some d ∧
        retryDelayLookup EMAIL_RETRY_CONFIG rc = (Some d, false)) ∧
(rc < 0 ∨ 5 ≤ rc → retryDelayLookup EMAIL_RETRY_CONFIG rc = (Some 600000, true)) ∧
30000 ≤ timerDelay (retryDelayLookup EMAIL_RETRY_CONFIG rc).1 ≤ 600000.
Proof.
split; [|split].
- intros Hrc. destruct (retryDelayLookup_in_table rc Hrc) as (d & Hd & Hl & _). eauto.
- apply retryDelayLookup_out_of_table.
- apply timerDelay_bounds.
Qed.

(** ** Times in every reachable state *)

Section Times.
Variable production : bool.
Implicit Types (st : State) (c : Call).

Lemma timerDelay_at_most rc :
timerDelay (retryDelayLookup EMAIL_RETRY_CONFIG rc).1 ≤ 600000.
Proof. apply timerDelay_bounds. Qed.

Lemma timesBounded_boot boot disk : timesBounded (initialState boot disk).
Proof. constructor; simpl; intros *; rewrite ?lookup_empty; done. Qed.

Lemma timesBounded_same st st' :
pendingEmailRetries st' = pendingEmailRetries st → timers st' = timers st →
Date_now st ≤ Date_now st' →
timesBounded st → timesBounded st'.
Proof.
intros Hl Ht Hn [H1 H2 H3]. constructor; rewrite ?Hl, ?Ht.
- intros cid rd Hrd. specialize (H1 cid rd Hrd). lia.
- intros id due c Hid. specialize (H2 id due c Hid). lia.
- intros id due fs cid Hid. specialize (H3 id due fs cid Hid). lia.
Qed.

Lemma timesBounded_call_cleanupFiles fs cid st :
timesBounded st → timesBounded (call_cleanupFiles fs cid st).
Proof.
destruct (call_cleanupFiles_fields fs cid st) as (_ & _ & _ & Hl & Ht & _ & _ & Hd).
apply timesBounded_same; [done|done|lia].
Qed.

Lemma timesBounded_start c o st :
timesBounded st → timesBounded (sendEmailsWithRetry_start c o st).
Proof. apply timesBounded_same; [done|done|simpl; lia]. Qed.

Lemma timesBounded_setTimeout cb delay st :
(∀ c, cb = RetryCallback c → delay ≤ 600000) →
(∀ fs cid, cb = CleanupCheckCallback fs cid → delay ≤ 30 * 60 * 1000) →
timesBounded st → timesBounded (setTimeout cb delay st).2.
Proof.
intros Hr Hc [H1 H2 H3]. constructor; simpl; try done.
- intros id due c. destruct (decide (nextTimerId st = id)) as [<-|Hne].
  + rewrite lookup_insert_eq. intros [= <- ->]. specialize (Hr c eq_refl). lia.
  + rewrite lookup_insert_ne by done. apply H2.
- intros id due fs cid. destruct (decide (nextTimerId st = id)) as [<-|Hne].
  + rewrite lookup_insert_eq. intros [= <- ->]. specialize (Hc fs cid eq_refl). lia.
  + rewrite lookup_insert_ne by done. apply H3.
Qed.

Lemma timesBounded_clearTimeout id st :
timesBounded st → timesBounded (clearTimeout id st).
Proof.
intros [H1 H2 H3]. constructor; simpl; try done.
- intros id' due c. rewrite lookup_delete_Some. intros [_ ?]. eauto.
- intros id' due fs cid. rewrite lookup_delete_Some. intros [_ ?]. eauto.
Qed.

Lemma timesBounded_clearTimeoutOf rd st :
timesBounded st → timesBounded (clearTimeoutOf rd st).
Proof.
unfold clearTimeoutOf. destruct (timeoutId rd); [apply timesBounded_clearTimeout|done].
Qed.

Lemma timesBounded_delete_entry cid st :
timesBounded st → timesBounded (set_ledger (delete cid (pendingEmailRetries st)) st).
Proof.
intros [H1 H2 H3]. constructor; simpl; try done.
intros k rd. rewrite lookup_delete_Some. intros [_ ?]. eauto.
Qed.

Lemma timesBounded_scheduleFileCleanup fs cid st :
timesBounded st → timesBounded (scheduleFileCleanup production fs cid st).
Proof.
apply timesBounded_setTimeout; [done|].
intros fs' cid' _. unfold cleanupDelay. destruct production; lia.
Qed.

Lemma timesBounded_settle c o st :
timesBounded st → timesBounded (sendEmailsWithRetry_settle production c o st).1.
Proof.
intros H. unfold sendEmailsWithRetry_settle. destruct o as [|stage message].
- destruct (pendingEmailRetries st !! c_clientId c) as [rd|]; [|done]. simpl.
  assert (timesBounded
            (set_ledger (delete (c_clientId c) (pendingEmailRetries (clearTimeoutOf rd st)))
                        (clearTimeoutOf rd st))) as H'
    by (by apply timesBounded_delete_entry, timesBounded_clearTimeoutOf).
  destruct (nonEmpty (c_files c)); [|done].
  by apply timesBounded_scheduleFileCleanup.
- case_bool_decide as Hbudget.
  + pose proof (timerDelay_at_most (c_retryCount c)) as Hle.
    destruct (retryDelayLookup EMAIL_RETRY_CONFIG (c_retryCount c)) as [d clamped].
    simpl in Hle. simpl. destruct H as [H1 H2 H3]. constructor; simpl.
    * intros cid rd. destruct (decide (c_clientId c = cid)) as [->|Hne].
      -- rewrite lookup_insert_eq. intros [= <-]. simpl. lia.
      -- rewrite lookup_insert_ne by done. apply H1.
    * intros id due c'. destruct (decide (nextTimerId st = id)) as [<-|Hne].
      -- rewrite lookup_insert_eq. intros [= <- _]. lia.
      -- rewrite lookup_insert_ne by done. apply H2.
    * intros id due fs cid. destruct (decide (nextTimerId st = id)) as [<-|Hne].
      -- rewrite lookup_insert_eq. intros Heq. discriminate Heq.
      -- rewrite lookup_insert_ne by done. apply H3.
  + simpl. destruct (bool_decide (is_Some (c_paymentInfo c)) && nonEmpty (c_files c));
      [|done].
    by apply timesBounded_call_cleanupFiles.
Qed.

Lemma timesBounded_continuation o c r st :
timesBounded st → timesBounded (continuation production o c r st).
Proof.
intros H. destruct o; simpl; try done.
unfold submitContinuation. destruct r.
- destruct (nonEmpty (c_files c)); [|done]. by apply timesBounded_scheduleFileCleanup.
- destruct (bool_decide (is_Some (c_paymentInfo c))); [done|].
  apply (timesBounded_same st); [done|done|simpl; lia|done].
- apply (timesBounded_same st); [done|done|simpl; lia|done].
Qed.

Lemma timesBounded_sweep st : timesBounded st → timesBounded (cleanupOldRetries st).
Proof.
intros [H1 H2 H3]. unfold cleanupOldRetries.
set (l := expiredEntries (Date_now st) (pendingEmailRetries st)).
destruct (purge_all_frame l st) as (Hd & _ & _).
constructor; rewrite ?Hd.
- intros cid rd. rewrite purge_all_ledger. case_bool_decide; [done|]. apply H1.
- intros id due c Hx. apply purge_all_timers_sub in Hx. eauto.
- intros id due fs cid Hx. apply purge_all_timers_sub in Hx. eauto.
Qed.

Lemma timesBounded_step a st st' :
step production a st = Some st' → timesBounded st → timesBounded st'.
Proof.
intros Hstep H. destruct a as [dt|fd fs cid pi|i o|id| |cid|fs cid]; simpl in Hstep.
- case_bool_decide; [|done]. injection Hstep as <-.
  apply (timesBounded_same st); [done|done|simpl; lia|done].
- injection Hstep as <-. by apply timesBounded_start.
- destruct (inflight st !! i) as [[c origin]|] eqn:Hi; [|done].
  destruct (sendEmailsWithRetry_settle production c o
              (set_inflight (delete i (inflight st)) st)) as [st2 r] eqn:Hsettle.
  injection Hstep as <-. apply timesBounded_continuation.
  change st2 with (st2, r).1. rewrite <- Hsettle.
  apply timesBounded_settle.
  apply (timesBounded_same st); [done|done|simpl; lia|done].
- destruct (timers st !! id) as [[due cb]|] eqn:Hid; [|done].
  case_bool_decide; [|done]. injection Hstep as <-.
  pose proof (timesBounded_clearTimeout id st H) as H'.
  destruct cb as [c|fs cid|fs cid]; simpl.
  + by apply timesBounded_start.
  + unfold cleanupCheck. case_bool_decide.
    * by apply timesBounded_setTimeout.
    * by apply timesBounded_call_cleanupFiles.
  + by apply timesBounded_call_cleanupFiles.
- injection Hstep as <-. by apply timesBounded_sweep.
- injection Hstep as <-. unfold manualRetry.
  case_bool_decide; [done|].
  destruct (pendingEmailRetries st !! cid) as [rd|] eqn:Hrd; [|done].
  by apply timesBounded_start, timesBounded_clearTimeoutOf.
- injection Hstep as <-. unfold testCleanup.
  destruct production; [done|]. destruct (nonEmpty fs); [|done].
  by apply timesBounded_setTimeout.
Qed.

Lemma reachable_timesBounded st : reachable production st → timesBounded st.
Proof.
induction 1 as [boot disk|st a st' _ IH Hstep].
- apply timesBounded_boot.
- by apply (timesBounded_step a st).
Qed.

(** In every reachable state no entry is stamped in the future, no retry
    is armed more than 10 minutes ahead and no cleanup check more than 30
    minutes ahead. *)
Theorem nothing_is_scheduled_too_far st :
reachable production st →
(∀ cid rd, pendingEmailRetries st !! cid = Some rd → createdAt rd ≤ Date_now st) ∧
(∀ id due c, timers st !! id = Some (due, RetryCallback c) →
             due ≤ Date_now st + 600000) ∧
(∀ id due fs cid, timers st !! id = Some (due, CleanupCheckCallback fs cid) →
                  due ≤ Date_now st + 30 * 60 * 1000).
Proof. intros H. by destruct (reachable_timesBounded st H). Qed.
End Times.

(** ** Every entry stands for a logged failure *)

Section Logged.
Variable production : bool.
Implicit Types (st : State) (c : Call).

Lemma failuresLogged_weaken st st' :
(∀ cid rd, pendingEmailRetries st' !! cid = Some rd →
           pendingEmailRetries st !! cid = Some rd) →
(∀ e, e ∈ console st → e ∈ console st') →
failuresLogged st → failuresLogged st'.
Proof.
intros Hl Hc H cid rd Hrd. destruct (H cid rd (Hl cid rd Hrd)) as (d & b & He).
exists d, b. by apply Hc.
Qed.

Lemma failuresLogged_same st st' :
pendingEmailRetries st' = pendingEmailRetries st → console st' = console st →
failuresLogged st → failuresLogged st'.
Proof. intros Hl Hc. apply failuresLogged_weaken; rewrite ?Hl, ?Hc; done. Qed.

Lemma failuresLogged_call_cleanupFiles fs cid st :
failuresLogged st → failuresLogged (call_cleanupFiles fs cid st).
Proof.
destruct (call_cleanupFiles_fields fs cid st) as (r & Hc & _ & Hl & _).
apply failuresLogged_weaken; rewrite ?Hl, ?Hc; [done|]. intros e He. by right.
Qed.

Lemma failuresLogged_start c o st :
failuresLogged st → failuresLogged (sendEmailsWithRetry_start c o st).
Proof. apply failuresLogged_weaken; simpl; [done|]. intros e He. by right. Qed.

Lemma failuresLogged_setTimeout cb delay st :
failuresLogged st → failuresLogged (setTimeout cb delay st).2.
Proof. by apply failuresLogged_same. Qed.

Lemma failuresLogged_clearTimeoutOf rd st :
failuresLogged st → failuresLogged (clearTimeoutOf rd st).
Proof. unfold clearTimeoutOf. destruct (timeoutId rd); by apply failuresLogged_same. Qed.

Lemma failuresLogged_delete_entry cid st :
failuresLogged st → failuresLogged (set_ledger (delete cid (pendingEmailRetries st)) st).
Proof.
apply failuresLogged_weaken; simpl; [|done].
intros k rd. rewrite lookup_delete_Some. by intros [_ ?].
Qed.

Lemma failuresLogged_settle c o st :
failuresLogged st → failuresLogged (sendEmailsWithRetry_settle production c o st).1.
Proof.
intros H. unfold sendEmailsWithRetry_settle. destruct o as [|stage message].
- destruct (pendingEmailRetries st !! c_clientId c) as [rd|]; [|done]. simpl.
  assert (failuresLogged
            (set_ledger (delete (c_clientId c) (pendingEmailRetries (clearTimeoutOf rd st)))
                        (clearTimeoutOf rd st))) as H'
    by (by apply failuresLogged_delete_entry, failuresLogged_clearTimeoutOf).
  destruct (nonEmpty (c_files c)); [|done].
  by apply failuresLogged_setTimeout.
- case_bool_decide as Hbudget.
  + destruct (retryDelayLookup EMAIL_RETRY_CONFIG (c_retryCount c)) as [d clamped].
    simpl. intros cid rd. simpl.
    destruct (decide (c_clientId c = cid)) as [->|Hne].
    * rewrite lookup_insert_eq. intros [= <-]. simpl.
      exists (timerDelay d), clamped. by left.
    * rewrite lookup_insert_ne by done. intros Hrd.
      destruct (H cid rd Hrd) as (d' & b & He). exists d', b. by right.
  + simpl. destruct (bool_decide (is_Some (c_paymentInfo c)) && nonEmpty (c_files c));
      [|done].
    by apply failuresLogged_call_cleanupFiles.
Qed.

Lemma failuresLogged_continuation o c r st :
failuresLogged st → failuresLogged (continuation production o c r st).
Proof.
intros H. destruct o; simpl; try done.
unfold submitContinuation. destruct r.
- destruct (nonEmpty (c_files c)); [|done]. by apply failuresLogged_setTimeout.
- destruct (bool_decide (is_Some (c_paymentInfo c))); [done|].
  by apply (failuresLogged_same st).
- by apply (failuresLogged_same st).
Qed.

Lemma failuresLogged_sweep st : failuresLogged st → failuresLogged (cleanupOldRetries st).
Proof.
unfold cleanupOldRetries.
set (l := expiredEntries (Date_now st) (pendingEmailRetries st)).
apply failuresLogged_weaken.
- intros cid rd. rewrite purge_all_ledger. by case_bool_decide.
- destruct (purge_all_console l st) as (new & -> & _).
  intros e He. apply elem_of_app. by right.
Qed.

Lemma failuresLogged_step a st st' :
step production a st = Some st' → failuresLogged st → failuresLogged st'.
Proof.
intros Hstep H. destruct a as [dt|fd fs cid pi|i o|id| |cid|fs cid]; simpl in Hstep.
- case_bool_decide; [|done]. injection Hstep as <-. by apply (failuresLogged_same st).
- injection Hstep as <-. by apply failuresLogged_start.
- destruct (inflight st !! i) as [[c origin]|] eqn:Hi; [|done].
  destruct (sendEmailsWithRetry_settle production c o
              (set_inflight (delete i (inflight st)) st)) as [st2 r] eqn:Hsettle.
  injection Hstep as <-. apply failuresLogged_continuation.
  change st2 with (st2, r).1. rewrite <- Hsettle.
  apply failuresLogged_settle. by apply (failuresLogged_same st).
- destruct (timers st !! id) as [[due cb]|] eqn:Hid; [|done].
  case_bool_decide; [|done]. injection Hstep as <-.
  assert (failuresLogged (clearTimeout id st)) as H' by (by apply (failuresLogged_same st)).
  destruct cb as [c|fs cid|fs cid]; simpl.
  + by apply failuresLogged_start.
  + unfold cleanupCheck. case_bool_decide.
    * by apply failuresLogged_setTimeout.
    * by apply failuresLogged_call_cleanupFiles.
  + by apply failuresLogged_call_cleanupFiles.
- injection Hstep as <-. by apply failuresLogged_sweep.
- injection Hstep as <-. unfold manualRetry.
  case_bool_decide; [done|].
  destruct (pendingEmailRetries st !! cid) as [rd|] eqn:Hrd; [|done].
  by apply failuresLogged_start, failuresLogged_clearTimeoutOf.
- injection Hstep as <-. unfold testCleanup.
  destruct production; [done|]. destruct (nonEmpty fs); [|done].
  by apply failuresLogged_setTimeout.
Qed.

Lemma reachable_failuresLogged st : reachable production st → failuresLogged st.
Proof.
induction 1 as [boot disk|st a st' _ IH Hstep].
- intros cid rd. simpl. by rewrite lookup_empty.
- by apply (failuresLogged_step a st).
Qed.

(** An identity is in the ledger only after a failed delivery: in every
    reachable state the console holds, for each entry, the line that
    announced the retry the entry's count stands for. *)
Theorem entry_only_after_logged_failure st cid rd :
reachable production st →
pendingEmailRetries st !! cid = Some rd →
∃ delay clamped, EvRetryScheduled cid (retryCount rd) delay clamped ∈ console st.
Proof. intros Hreach. by apply reachable_failuresLogged. Qed.

(** ** Monitoring endpoint *)

(** What [GET /api/email-retries] reports in a reachable state: one
    element per ledger entry and no identity twice; each element shows the
    entry's own retry count, which lies between 1 and 5, an age that is
    not negative, and a payment id (the entry is a paid submission). *)
Theorem email_retries_report st :
reachable production st →
totalPendingRetries st = size (pendingEmailRetries st) ∧
NoDup (r_clientId <$> emailRetries st) ∧
∀ r, r ∈ emailRetries st →
  (∃ rd, pendingEmailRetries st !! r_clientId r = Some rd ∧
         r_retryCount r = retryCount rd ∧
         r_ageMinutes r = ageMinutes (Date_now st) (createdAt rd)) ∧
  1 ≤ r_retryCount r ≤ 5 ∧ 0 ≤ r_ageMinutes r ∧ is_Some (r_paymentId r).
Proof.
intros Hreach. unfold totalPendingRetries, emailRetries.
split; [by rewrite length_fmap, length_map_to_list|]. split.
- rewrite <- list_fmap_compose.
  rewrite (list_fmap_ext (r_clientId ∘ reportOf (Date_now st)) fst
             (map_to_list (pendingEmailRetries st))) by done.
  apply NoDup_fst_map_to_list.
- intros r Hr. apply list_elem_of_fmap in Hr as ([k rd] & -> & Hin).
  apply elem_of_map_to_list in Hin. simpl.
  destruct (reachable_countsInRange production st Hreach) as [Hcount _ _ _].
  destruct (reachable_timesBounded production st Hreach) as [Hpast _ _].
  destruct (reachable_ledgerWellFormed production st Hreach) as [_ Hpaid _ _ _].
  split; [by exists rd|]. split; [by apply (Hcount k)|]. split.
  + unfold ageMinutes. apply Z.div_pos; [|lia]. specialize (Hpast k rd Hin). lia.
  + destruct (Hpaid k rd Hin) as [pi ->]. by eexists.
Qed.
End Logged.

(** ** The handlers around one attempt *)

Section Handlers.
Variable production : bool.
Implicit Types (st : State) (c : Call) (fs : list File).

Lemma step_SendDone_at i c o out st :
inflight st !! i = Some (c, o) →
step production (SendDone i out) st =
  Some (continuation production o c
          (sendEmailsWithRetry_settle production c out
             (set_inflight (delete i (inflight st)) st)).2
          (sendEmailsWithRetry_settle production c out
             (set_inflight (delete i (inflight st)) st)).1).
Proof.
intros Hin. unfold step. rewrite Hin.
by destruct (sendEmailsWithRetry_settle production c out
               (set_inflight (delete i (inflight st)) st)).
Qed.

Lemma unpaid_failure_changes_nothing_aux fd fs cid rc stage message st :
sendEmailsWithRetry_settle production (mkCall fd fs cid None rc)
                           (SendFailed stage message) st
= (st, ResFailed message).
Proof.
unfold sendEmailsWithRetry_settle. simpl c_paymentInfo.
rewrite bool_decide_eq_false_2 by (intros [[? ?] _]; discriminate).
rewrite (bool_decide_eq_false_2 (is_Some None)) by (intros [? ?]; discriminate).
reflexivity.
Qed.

(** What the direct unlinking of the submit handler leaves on storage. *)
Lemma unlinkAll_spec fs : ∀ s,
undeletable (unlinkAll fs s) = undeletable s ∧
existing (unlinkAll fs s) = existing s ∖ (list_to_set (path <$> fs) ∖ undeletable s).
Proof.
unfold unlinkAll. induction fs as [|f fs IH]; intros s; cbn [foldl].
- split; [done|]. rewrite difference_disjoint_L; [done|]. set_solver.
- destruct (unlink s (path f)) as [s'|err] eqn:Hunlink.
  + unfold unlink, existsSync in Hunlink.
    case_bool_decide as Hex; [|done]. case_bool_decide as Hun; [done|].
    injection Hunlink as <-.
    destruct (IH (mkStorage (existing s ∖ {[path f]}) (undeletable s))) as [Hu He].
    split; [done|]. rewrite He. simpl. by apply difference_after_delete.
  + destruct (IH s) as [Hu He]. split; [done|]. rewrite He. simpl.
    unfold unlink, existsSync in Hunlink.
    case_bool_decide as Hex.
    * case_bool_decide as Hun; [|done]. by rewrite difference_skip_locked.
    * by rewrite difference_skip_missing.
Qed.

(** When the only attempt of a submission without payment fails, the
    submit handler disposes of the uploads itself: the ledger and the
    timer table stay as they were, [cleanupFiles] is not called, and of
    the uploaded files only those whose deletion is rejected remain. *)
Theorem unpaid_failure_disposes_uploads i fd fs cid rc stage message st :
inflight st !! i = Some (mkCall fd fs cid None rc, FromSubmit) →
∃ st',
  step production (SendDone i (SendFailed stage message)) st = Some st' ∧
  pendingEmailRetries st' = pendingEmailRetries st ∧ timers st' = timers st ∧
  console st' = console st ∧
  inflight st' = delete i (inflight st) ∧
  existing (uploads st') =
    existing (uploads st) ∖ (list_to_set (path <$> fs) ∖ undeletable (uploads st)).
Proof.
intros Hin. eexists. split.
- rewrite (step_SendDone_at i _ _ _ _ Hin).
  rewrite unpaid_failure_changes_nothing_aux. reflexivity.
- simpl. repeat split. by destruct (unlinkAll_spec fs (uploads st)) as [_ ->].
Qed.

(** A failed attempt of a paid submission with budget left deletes no
    file and calls no cleanup, whoever awaits it: the uploads are kept for
    the retry that is armed in the same turn. *)
Theorem paid_failure_keeps_uploads i c o stage message st :
inflight st !! i = Some (c, o) →
is_Some (c_paymentInfo c) → 0 ≤ c_retryCount c < 5 →
∃ st' d,
  step production (SendDone i (SendFailed stage message)) st = Some st' ∧
  retryDelays EMAIL_RETRY_CONFIG !! Z.to_nat (c_retryCount c) = Some d ∧
  uploads st' = uploads st ∧
  console st' = EvRetryScheduled (c_clientId c) (c_retryCount c + 1) d false :: console st ∧
  timers st' =
    <[nextTimerId st :=
        (Date_now st + d,
         RetryCallback (mkCall (c_formData c) (c_files c) (c_clientId c)
                               (c_paymentInfo c) (c_retryCount c + 1)))]> (timers st) ∧
  inflight st' = delete i (inflight st).
Proof.
intros Hin [pi Hpi] Hrc. destruct c as [fd fs cid opi rc].
cbn [c_formData c_files c_clientId c_paymentInfo c_retryCount] in *. subst opi.
destruct (retryDelayLookup_in_table rc Hrc) as (d & Hd & _).
eexists _, d. split.
- rewrite (step_SendDone_at i _ _ _ _ Hin).
  rewrite (settle_failure_schedules production fd fs cid pi rc stage message _ d Hrc Hd).
  cbn [fst snd]. destruct o; reflexivity.
- destruct o; simpl; repeat split; done.
Qed.

(** A manual retry spends the budget like an automatic one.  Requested
    for an identity in the ledger, it clears the entry's timer and
    re-sends at the entry's retry count; if that attempt fails and the
    count is below 5, the entry is replaced with the count raised by one
    and a timer armed with the table delay of the old count; if the count
    is 5, nothing is armed and the entry stays as it is. *)
Theorem manual_retry_spends_budget cid rd stage message st :
reachable production st → cid ≠ ""%string →
pendingEmailRetries st !! cid = Some rd →
∃ st' id,
  run production [ManualRetry cid; SendDone 0 (SendFailed stage message)] st = Some st' ∧
  timeoutId rd = Some id ∧
  if bool_decide (retryCount rd < 5) then
    ∃ d, retryDelays EMAIL_RETRY_CONFIG !! Z.to_nat (retryCount rd) = Some d ∧
      pendingEmailRetries st' !! cid =
        Some (mkRetryData (formData rd) (files rd) cid (paymentInfo rd)
                          (retryCount rd + 1) (Date_now st) (Some (nextTimerId st))) ∧
      timers st' =
        <[nextTimerId st :=
            (Date_now st + d,
             RetryCallback (mkCall (formData rd) (files rd) cid (paymentInfo rd)
                                   (retryCount rd + 1)))]> (delete id (timers st))
  else
    pendingEmailRetries st' = pendingEmailRetries st ∧
    timers st' = delete id (timers st).
Proof.
intros Hreach Hcid Hrd.
destruct (reachable_ledgerWellFormed production st Hreach) as [Hkey Hpaid Hhandle _ _].
destruct (reachable_countsInRange production st Hreach) as [Hcount _ _ _].
specialize (Hkey cid rd Hrd). destruct (Hpaid cid rd Hrd) as [pi Hpi].
destruct (Hhandle cid rd Hrd) as (id & Hid & _). specialize (Hcount cid rd Hrd).
assert (step production (ManualRetry cid) st =
        Some (sendEmailsWithRetry_start
                (mkCall (formData rd) (files rd) cid (Some pi) (retryCount rd))
                FromManual (clearTimeout id st))) as Hmanual.
{ cbn [step]. unfold manualRetry. rewrite (bool_decide_eq_false_2 _ Hcid), Hrd.
  unfold clearTimeoutOf. by rewrite Hid, Hkey, Hpi. }
case_bool_decide as Hbudget.
- destruct (retryDelayLookup_in_table (retryCount rd)) as (d & Hd & _); [simpl; lia|].
  eexists _, id. split; [|split; [done|]].
  + erewrite run_cons_Some by exact Hmanual.
    erewrite run_cons_Some; [reflexivity|].
    erewrite step_SendDone_head by reflexivity.
    rewrite (settle_failure_schedules production _ _ cid pi (retryCount rd) stage message _ d)
      by (done || (simpl; lia)).
    reflexivity.
  + exists d. split; [done|]. simpl. rewrite lookup_insert_eq. by rewrite Hpi.
- eexists _, id. split; [|split; [done|]].
  + erewrite run_cons_Some by exact Hmanual.
    erewrite run_cons_Some; [reflexivity|].
    erewrite step_SendDone_head by reflexivity.
    rewrite settle_failure_exhausted by (simpl; lia).
    reflexivity.
  + cbn [fst snd continuation]. destruct (nonEmpty (files rd)); [|done].
    match goal with |- context [call_cleanupFiles ?f ?k ?s] =>
      destruct (call_cleanupFiles_fields f k s) as (_ & _ & _ & -> & -> & _)
    end.
    done.
Qed.

(** A retry that gets through: when the timer of an entry fires at its
    due time and the transport accepts both mails, the entry leaves the
    ledger, its handle is no longer armed, no file is deleted and
    [cleanupFiles] is not called; with attachments, exactly one cleanup
    check is armed, [cleanupDelay] after the success. *)
Theorem retry_success_leaves_ledger_and_schedules cid rd id due cb st :
reachable production st →
pendingEmailRetries st !! cid = Some rd → timeoutId rd = Some id →
timers st !! id = Some (due, cb) → Date_now st ≤ due →
∃ st',
  run production [Tick (due - Date_now st); TimerFire id; SendDone 0 Sent] st = Some st' ∧
  pendingEmailRetries st' = delete cid (pendingEmailRetries st) ∧
  timers st' =
    (if nonEmpty (files rd)
     then <[nextTimerId st := (due + cleanupDelay production,
                               CleanupCheckCallback (files rd) cid)]> (delete id (timers st))
     else delete id (timers st)) ∧
  console st' = EvAttempt cid (retryCount rd) due :: console st ∧
  uploads st' = uploads st ∧ inflight st' = inflight st.
Proof.
intros Hreach Hrd Hid Hcb Hdue.
destruct (reachable_ledgerWellFormed production st Hreach) as [Hkey _ _ _ Hown].
specialize (Hkey cid rd Hrd). specialize (Hown cid rd id due cb Hrd Hid Hcb). subst cb.
eexists. split.
- erewrite run_cons_Some by (apply step_Tick; lia).
  erewrite run_cons_Some by (eapply step_TimerFire; [exact Hcb | simpl; lia]).
  erewrite run_cons_Some; [reflexivity|].
  cbn [runCallback]. unfold sendEmailsWithRetry_start.
  erewrite step_SendDone_head by reflexivity.
  unfold sendEmailsWithRetry_settle. cbn [c_clientId c_files]. rewrite Hkey.
  simpl pendingEmailRetries. rewrite Hrd. reflexivity.
- unfold clearTimeoutOf. rewrite Hid.
  assert (delete id (delete id (timers st)) = delete id (timers st)) as Hdd.
  { apply delete_id. apply lookup_delete_eq. }
  destruct (nonEmpty (files rd)); simpl; rewrite Hdd; repeat split; try done.
  all: try (do 3 f_equal; lia). all: do 2 f_equal; lia.
Qed.

(** A first attempt that gets through: for an identity that is not in the
    ledger, the ledger is not touched and the submit handler arms the one
    cleanup check of the submission, [cleanupDelay] ahead; without
    attachments nothing is armed at all. *)
Theorem first_try_success_schedules_one_cleanup fd fs cid pi st :
pendingEmailRetries st !! cid = None →
∃ st',
  run production [Submit fd fs cid pi; SendDone 0 Sent] st = Some st' ∧
  pendingEmailRetries st' = pendingEmailRetries st ∧
  timers st' =
    (if nonEmpty fs
     then <[nextTimerId st := (Date_now st + cleanupDelay production,
                               CleanupCheckCallback fs cid)]> (timers st)
     else timers st) ∧
  console st' = EvAttempt cid 0 (Date_now st) :: console st ∧
  uploads st' = uploads st ∧ inflight st' = inflight st.
Proof.
intros Hnone. eexists. split.
- erewrite run_cons_Some by reflexivity.
  erewrite run_cons_Some; [reflexivity|].
  unfold sendEmailsWithRetry_start.
  erewrite step_SendDone_head by reflexivity.
  unfold sendEmailsWithRetry_settle. cbn [c_clientId]. simpl pendingEmailRetries.
  rewrite Hnone. reflexivity.
- cbn [fst snd continuation submitContinuation c_files c_clientId].
  destruct (nonEmpty fs); simpl; repeat split; done.
Qed.

(** The test endpoint does not look at the ledger.  In production it does
    nothing; elsewhere, given a non-empty file list, it arms a timer one
    second ahead whose firing calls [cleanupFiles] on the list, whether or
    not a retry is pending for the identity. *)
Theorem test_cleanup_ignores_ledger fs cid st :
(production = true → step production (TestCleanup fs cid) st = Some st) ∧
(production = false → nonEmpty fs = true →
 ∃ st' r,
   run production [TestCleanup fs cid; Tick 1000; TimerFire (nextTimerId st)] st = Some st' ∧
   console st' =
     EvCleanupFiles cid fs (bool_decide (is_Some (pendingEmailRetries st !! cid))) r
     :: console st ∧
   uploads st' = (cleanupFiles fs cid (uploads st)).1 ∧
   pendingEmailRetries st' = pendingEmailRetries st).
Proof.
split.
- intros ->. reflexivity.
- intros Hprod Hfs.
  set (st1 := (setTimeout (DeferredCleanupCallback fs cid) 1000 st).2).
  assert (step production (TestCleanup fs cid) st = Some st1) as H1.
  { cbn [step]. unfold testCleanup. by rewrite Hprod, Hfs. }
  set (st2 := mkState (pendingEmailRetries st1) (timers st1) (nextTimerId st1)
                      (Date_now st1 + 1000) (uploads st1) (inflight st1) (console st1)).
  assert (step production (TimerFire (nextTimerId st)) st2 =
          Some (call_cleanupFiles fs cid (clearTimeout (nextTimerId st) st2))) as H3.
  { change (call_cleanupFiles fs cid (clearTimeout (nextTimerId st) st2))
      with (runCallback production (DeferredCleanupCallback fs cid)
              (clearTimeout (nextTimerId st) st2)).
    eapply step_TimerFire.
    - simpl. apply lookup_insert_eq.
    - simpl. lia. }
  destruct (call_cleanupFiles_fields fs cid (clearTimeout (nextTimerId st) st2))
    as (r & Hc & Hu & Hl & _).
  exists (call_cleanupFiles fs cid (clearTimeout (nextTimerId st) st2)), r.
  split.
  + erewrite run_cons_Some by exact H1.
    erewrite run_cons_Some by (apply step_Tick; lia).
    erewrite run_cons_Some by exact H3. reflexivity.
  + rewrite Hc, Hu, Hl. done.
Qed.
End Handlers.

(** ** How many timers an identity can have *)

Section Tokens.
Variable production : bool.
Variable cid : string.
Implicit Types (st : State) (c : Call) (m : gmap nat (Z * Callback)).

Lemma length_filter_map_to_list (P : nat * (Z * Callback) → Prop)
  `{!∀ kv, Decision (P kv)} m :
length (filter P (map_to_list m)) = size (filter P m).
Proof.
induction m as [|i x m Hi IH] using map_ind.
- by rewrite map_to_list_empty, map_filter_empty, map_size_empty.
- rewrite (Permutation_length
             (filter_Permutation P _ _ (map_to_list_insert m i x Hi))).
  rewrite map_filter_insert. rewrite filter_cons. destruct (decide (P (i, x))).
  + simpl. rewrite IH. rewrite map_size_insert_None; [done|].
    apply map_lookup_filter_None. left. done.
  + rewrite IH. by rewrite (delete_id m i Hi).
Qed.

Lemma armedRetryCount_size st :
armedRetryCount cid st
= size (filter (λ kv : nat * (Z * Callback), isRetryFor cid kv.2.2 = true) (timers st)).
Proof.
unfold armedRetryCount, armedRetryTimers. rewrite length_fmap.
apply length_filter_map_to_list.
Qed.

Lemma armedRetryCount_same st st' :
timers st' = timers st → armedRetryCount cid st' = armedRetryCount cid st.
Proof. intros H. by rewrite !armedRetryCount_size, H. Qed.

Lemma armedRetryCount_sub st st' :
(∀ id x, timers st' !! id = Some x → timers st !! id = Some x) →
(armedRetryCount cid st' ≤ armedRetryCount cid st)%nat.
Proof.
intros Hsub. rewrite !armedRetryCount_size.
apply map_subseteq_size, map_filter_subseteq_mono, map_subseteq_spec. exact Hsub.
Qed.

Lemma armedRetryCount_clearTimeout id st :
(armedRetryCount cid (clearTimeout id st) ≤ armedRetryCount cid st)%nat.
Proof.
apply armedRetryCount_sub. intros id' x. simpl. rewrite lookup_delete_Some. by intros [_ ?].
Qed.

Lemma armedRetryCount_clearTimeoutOf rd st :
(armedRetryCount cid (clearTimeoutOf rd st) ≤ armedRetryCount cid st)%nat.
Proof.
unfold clearTimeoutOf. destruct (timeoutId rd); [apply armedRetryCount_clearTimeout|done].
Qed.

(** Firing a retry of the identity takes one timer away. *)
Lemma armedRetryCount_fire id due c st :
timers st !! id = Some (due, RetryCallback c) → c_clientId c = cid →
S (armedRetryCount cid (clearTimeout id st)) = armedRetryCount cid st.
Proof.
intros Hid Hc. rewrite !armedRetryCount_size. simpl.
rewrite map_filter_delete. rewrite map_size_delete_Some; [|].
- assert (0 < size (filter (λ kv : nat * (Z * Callback), isRetryFor cid kv.2.2 = true)
                           (timers st)))%nat; [|lia].
  apply Nat.neq_0_lt_0. intros Hzero. apply map_size_empty_inv in Hzero.
  assert (filter (λ kv : nat * (Z * Callback), isRetryFor cid kv.2.2 = true) (timers st)
          !! id = Some (due, RetryCallback c)) as Hin.
  { apply map_lookup_filter_Some. split; [done|]. simpl. by apply bool_decide_eq_true_2. }
  rewrite Hzero in Hin. by rewrite lookup_empty in Hin.
- exists (due, RetryCallback c). apply map_lookup_filter_Some. split; [done|].
  simpl. by apply bool_decide_eq_true_2.
Qed.

Lemma armedRetryCount_setTimeout cb delay st :
(armedRetryCount cid (setTimeout cb delay st).2
 ≤ armedRetryCount cid st + (if isRetryFor cid cb then 1 else 0))%nat.
Proof.
rewrite !armedRetryCount_size. simpl. rewrite map_filter_insert.
destruct (decide (isRetryFor cid cb = true)) as [Hyes|Hno].
- rewrite decide_True by done. rewrite Hyes. rewrite map_size_insert.
  destruct (filter (λ kv : nat * (Z * Callback), isRetryFor cid kv.2.2 = true) (timers st)
            !! nextTimerId st); simpl; lia.
- rewrite decide_False by done.
  etrans; [apply map_subseteq_size, map_filter_subseteq_mono, delete_subseteq|]. lia.
Qed.

Lemma inflightFor_cons c o st rest :
inflight st = (c, o) :: rest →
inflightFor cid st
= ((if bool_decide (c_clientId c = cid) then 1 else 0) + length (List.filter (isCallFor cid) rest))%nat.
Proof.
intros H. unfold inflightFor. rewrite H. simpl. unfold isCallFor at 1. simpl.
by case_bool_decide.
Qed.

Lemma filter_isCallFor_delete (l : list (Call * Origin)) : ∀ i c o,
l !! i = Some (c, o) →
((if bool_decide (c_clientId c = cid) then 1 else 0)
 + length (List.filter (isCallFor cid) (delete i l))
 = length (List.filter (isCallFor cid) l))%nat.
Proof.
induction l as [|[c' o'] l IH]; intros i c o Hi; [done|].
destruct i as [|i]; simpl in Hi.
- injection Hi as -> ->. simpl. unfold isCallFor at 2. simpl. by case_bool_decide.
- simpl. specialize (IH i c o Hi). destruct (isCallFor cid (c', o')); simpl; lia.
Qed.

Lemma inflightFor_same st st' :
inflight st' = inflight st → inflightFor cid st' = inflightFor cid st.
Proof. intros H. unfold inflightFor. by rewrite H. Qed.

Lemma inflightFor_start c o st :
inflightFor cid (sendEmailsWithRetry_start c o st)
= ((if bool_decide (c_clientId c = cid) then 1 else 0) + inflightFor cid st)%nat.
Proof. by rewrite (inflightFor_cons c o _ (inflight st)). Qed.

Lemma tokens_call_cleanupFiles fs k st :
armedRetryCount cid (call_cleanupFiles fs k st) = armedRetryCount cid st ∧
inflight (call_cleanupFiles fs k st) = inflight st.
Proof.
destruct (call_cleanupFiles_fields fs k st) as (_ & _ & _ & _ & Ht & _ & Hi & _).
split; [by apply armedRetryCount_same|done].
Qed.

Lemma tokens_scheduleFileCleanup fs k st :
(armedRetryCount cid (scheduleFileCleanup production fs k st) ≤ armedRetryCount cid st)%nat ∧
inflight (scheduleFileCleanup production fs k st) = inflight st.
Proof.
split; [|done]. unfold scheduleFileCleanup.
etrans; [apply armedRetryCount_setTimeout|]. simpl. lia.
Qed.

(** Settling an attempt arms at most one retry, and only for the identity
    of the attempt. *)
Lemma tokens_settle c o st :
(armedRetryCount cid (sendEmailsWithRetry_settle production c o st).1
 ≤ armedRetryCount cid st + (if bool_decide (c_clientId c = cid) then 1 else 0))%nat ∧
inflight (sendEmailsWithRetry_settle production c o st).1 = inflight st.
Proof.
unfold sendEmailsWithRetry_settle. destruct o as [|stage message].
- destruct (pendingEmailRetries st !! c_clientId c) as [rd|]; [|simpl; split; [lia|done]].
  cbn [fst].
  set (st2 := set_ledger (delete (c_clientId c) (pendingEmailRetries (clearTimeoutOf rd st)))
                         (clearTimeoutOf rd st)).
  assert ((armedRetryCount cid st2 ≤ armedRetryCount cid st)%nat ∧ inflight st2 = inflight st)
    as [Ht Hi].
  { split.
    - rewrite (armedRetryCount_same (clearTimeoutOf rd st) st2) by done.
      apply armedRetryCount_clearTimeoutOf.
    - unfold st2, clearTimeoutOf. by destruct (timeoutId rd). }
  destruct (nonEmpty (c_files c)).
  + destruct (tokens_scheduleFileCleanup (c_files c) (c_clientId c) st2) as [Ht' Hi'].
    split; [lia|congruence].
  + split; [lia|done].
- case_bool_decide as Hbudget.
  + destruct (retryDelayLookup EMAIL_RETRY_CONFIG (c_retryCount c)) as [d clamped].
    cbn [fst]. split; [|done].
    pose proof (armedRetryCount_setTimeout
                  (RetryCallback (mkCall (c_formData c) (c_files c) (c_clientId c)
                                         (c_paymentInfo c) (c_retryCount c + 1)))
                  (timerDelay d)
                  (log (EvRetryScheduled (c_clientId c) (c_retryCount c + 1)
                                         (timerDelay d) clamped) st)) as Hset.
    simpl isRetryFor in Hset.
    rewrite (armedRetryCount_same st (log _ st)) in Hset by done.
    etrans; [|exact Hset]. apply Nat.eq_le_incl. by apply armedRetryCount_same.
  + cbn [fst].
    destruct (bool_decide (is_Some (c_paymentInfo c)) && nonEmpty (c_files c)).
    * destruct (tokens_call_cleanupFiles (c_files c) (c_clientId c) st) as [-> ->].
      split; [lia|done].
    * split; [lia|done].
Qed.

Lemma tokens_continuation o c r st :
(armedRetryCount cid (continuation production o c r st) ≤ armedRetryCount cid st)%nat ∧
inflight (continuation production o c r st) = inflight st.
Proof.
destruct o; simpl; try (split; [lia|done]).
unfold submitContinuation. destruct r.
- destruct (nonEmpty (c_files c)); [apply tokens_scheduleFileCleanup|split; [lia|done]].
- destruct (bool_decide (is_Some (c_paymentInfo c))); (split; [|done]);
    apply Nat.eq_le_incl; by apply armedRetryCount_same.
- split; [|done]. apply Nat.eq_le_incl. by apply armedRetryCount_same.
Qed.

Lemma tokens_sweep st :
(armedRetryCount cid (cleanupOldRetries st) ≤ armedRetryCount cid st)%nat ∧
inflight (cleanupOldRetries st) = inflight st.
Proof.
unfold cleanupOldRetries. split.
- apply armedRetryCount_sub. intros id x. apply purge_all_timers_sub.
- by destruct (purge_all_frame
                 (expiredEntries (Date_now st) (pendingEmailRetries st)) st) as (_ & -> & _).
Qed.

(** One turn adds at most one timer-or-attempt for the identity, and only
    when it is a submission under the identity or a manual retry of it. *)
Lemma tokens_step a st st' :
ledgerWellFormed st → step production a st = Some st' →
(armedRetryCount cid st' + inflightFor cid st'
 ≤ armedRetryCount cid st + inflightFor cid st
   + (if startsAttemptFor cid a then 1 else 0))%nat.
Proof.
intros Hwf Hstep. destruct a as [dt|fd fs k pi|i o|id| |k|fs k]; simpl in Hstep.
- case_bool_decide; [|done]. injection Hstep as <-. simpl.
  rewrite (armedRetryCount_same st) by done. rewrite (inflightFor_same st) by done. lia.
- injection Hstep as <-. rewrite inflightFor_start.
  rewrite (armedRetryCount_same st) by done. simpl. lia.
- destruct (inflight st !! i) as [[c origin]|] eqn:Hi; [|done].
  destruct (sendEmailsWithRetry_settle production c o
              (set_inflight (delete i (inflight st)) st)) as [st2 r] eqn:Hsettle.
  injection Hstep as <-.
  destruct (tokens_continuation origin c r st2) as [Ht3 Hi3].
  destruct (tokens_settle c o (set_inflight (delete i (inflight st)) st)) as [Ht2 Hi2].
  rewrite Hsettle in Ht2, Hi2. cbn [fst] in Ht2, Hi2.
  rewrite (armedRetryCount_same st (set_inflight _ st)) in Ht2 by done.
  pose proof (filter_isCallFor_delete (inflight st) i c origin Hi) as Hdel.
  unfold inflightFor. rewrite Hi3, Hi2. cbn [inflight set_inflight startsAttemptFor].
  rewrite <- Hdel. destruct (bool_decide (c_clientId c = cid)); lia.
- destruct (timers st !! id) as [[due cb]|] eqn:Hid; [|done].
  case_bool_decide; [|done]. injection Hstep as <-.
  destruct cb as [c|fs k|fs k]; simpl.
  + rewrite inflightFor_start.
    rewrite (armedRetryCount_same (clearTimeout id st)) by done.
    rewrite (inflightFor_same st (clearTimeout id st)) by done.
    case_bool_decide as Hc.
    * pose proof (armedRetryCount_fire id due c st Hid Hc). lia.
    * pose proof (armedRetryCount_clearTimeout id st). lia.
  + pose proof (armedRetryCount_clearTimeout id st) as Hclr.
    unfold cleanupCheck. case_bool_decide.
    * pose proof (armedRetryCount_setTimeout (DeferredCleanupCallback fs k)
                    (cleanupRetryDelay production) (clearTimeout id st)) as Hset.
      cbn [isRetryFor] in Hset.
      assert (inflightFor cid
                (setTimeout (DeferredCleanupCallback fs k) (cleanupRetryDelay production)
                            (clearTimeout id st)).2 = inflightFor cid st) as ->
        by (by apply inflightFor_same).
      lia.
    * destruct (tokens_call_cleanupFiles fs k (clearTimeout id st)) as [Ht Hi'].
      rewrite Ht.
      assert (inflightFor cid (call_cleanupFiles fs k (clearTimeout id st))
              = inflightFor cid st) as -> by (apply inflightFor_same; by rewrite Hi').
      lia.
  + pose proof (armedRetryCount_clearTimeout id st) as Hclr.
    unfold deferredCleanup.
    destruct (tokens_call_cleanupFiles fs k (clearTimeout id st)) as [Ht Hi'].
    rewrite Ht.
    assert (inflightFor cid (call_cleanupFiles fs k (clearTimeout id st))
            = inflightFor cid st) as -> by (apply inflightFor_same; by rewrite Hi').
    lia.
- injection Hstep as <-. destruct (tokens_sweep st) as [Ht Hi].
  assert (inflightFor cid (cleanupOldRetries st) = inflightFor cid st) as ->
    by (by apply inflightFor_same).
  simpl. lia.
- injection Hstep as <-. unfold manualRetry.
  case_bool_decide; [lia|].
  destruct (pendingEmailRetries st !! k) as [rd|] eqn:Hrd; [|lia].
  rewrite inflightFor_start. cbn [c_clientId].
  rewrite (armedRetryCount_same (clearTimeoutOf rd st)) by done.
  assert (inflightFor cid (clearTimeoutOf rd st) = inflightFor cid st) as ->.
  { apply inflightFor_same. unfold clearTimeoutOf. by destruct (timeoutId rd). }
  pose proof (armedRetryCount_clearTimeoutOf rd st).
  destruct Hwf as [Hkey _ _ _ _]. rewrite (Hkey k rd Hrd). simpl. lia.
- injection Hstep as <-. unfold testCleanup.
  destruct production; [lia|]. destruct (nonEmpty fs); [|lia].
  pose proof (armedRetryCount_setTimeout (DeferredCleanupCallback fs k) 1000 st) as Hset.
  cbn [isRetryFor] in Hset.
  assert (inflightFor cid (setTimeout (DeferredCleanupCallback fs k) 1000 st).2
          = inflightFor cid st) as -> by (by apply inflightFor_same).
  lia.
Qed.

Lemma tokens_run acts : ∀ st st',
ledgerWellFormed st → run production acts st = Some st' →
(armedRetryCount cid st' + inflightFor cid st'
 ≤ armedRetryCount cid st + inflightFor cid st + requestsFor cid acts)%nat.
Proof.
induction acts as [|a acts IH]; intros st st' Hwf Hrun; simpl in Hrun.
- injection Hrun as <-. unfold requestsFor. simpl. lia.
- destruct (step production a st) as [st1|] eqn:Hstep; [|done].
  pose proof (tokens_step a st st1 Hwf Hstep) as H1.
  pose proof (IH st1 st' (ledgerWellFormed_step production a st st1 Hstep Hwf) Hrun) as H2.
  unfold requestsFor in *. simpl. destruct (startsAttemptFor cid a); simpl; lia.
Qed.

(** However the turns interleave, the armed retry timers of an identity
    and its suspended attempts together never outnumber the requests that
    started an attempt for it from outside: the submissions made under the
    identity and the manual retries asked for it.  In particular an
    identity submitted once and never retried by hand has at most one
    armed retry timer, and none while an attempt of it is under way. *)
Theorem timers_bounded_by_requests acts boot disk st :
run production acts (initialState boot disk) = Some st →
(armedRetryCount cid st + inflightFor cid st ≤ requestsFor cid acts)%nat.
Proof.
intros Hrun.
pose proof (tokens_run acts (initialState boot disk) st
              (ledgerWellFormed_boot boot disk) Hrun) as H.
assert (armedRetryCount cid (initialState boot disk) = 0%nat) as H0.
{ rewrite armedRetryCount_size. simpl. by rewrite map_filter_empty, map_size_empty. }
rewrite H0 in H. unfold inflightFor in H at 2. simpl in H. lia.
Qed.
End Tokens.

(** ** Identifiers *)

Section Identifiers.
Implicit Types (s a b : string) (x y : N) (k : nat).

Lemma string_app_cons ch a b : String ch a +:+ b = String ch (a +:+ b).
Proof. reflexivity. Qed.

Lemma string_app_nil_l b : "" +:+ b = b.
Proof. reflexivity. Qed.

Lemma string_app_assoc a b s : (a +:+ b) +:+ s = a +:+ (b +:+ s).
Proof.
induction a as [|ch a IH]; [done|]. by rewrite !string_app_cons, IH.
Qed.

Lemma string_app_nil_r a : a +:+ "" = a.
Proof. induction a as [|ch a IH]; [done|]. by rewrite string_app_cons, IH. Qed.

Lemma string_length_app a b : String.length (a +:+ b) = (String.length a + String.length b)%nat.
Proof.
induction a as [|ch a IH]; [done|]. rewrite string_app_cons. cbn [String.length]. by rewrite IH.
Qed.

Lemma dropString_app a b : dropString (String.length a) (a +:+ b) = b.
Proof.
induction a as [|ch a IH]; [by destruct b|].
rewrite string_app_cons. cbn [String.length dropString]. exact IH.
Qed.

Lemma sliceLast_app a b n : String.length b = n → sliceLast n (a +:+ b) = b.
Proof.
intros <-. unfold sliceLast. rewrite string_length_app.
replace (String.length a + String.length b - String.length b)%nat
  with (String.length a) by lia.
apply dropString_app.
Qed.

Lemma string_app_inj a a' b b' :
String.length a = String.length a' → a +:+ b = a' +:+ b' → a = a' ∧ b = b'.
Proof.
revert a'. induction a as [|ch a IH]; intros [|ch' a'] Hlen Heq; try done.
rewrite !string_app_cons in Heq. cbn [String.length] in Hlen.
injection Heq as -> Heq. injection Hlen as Hlen.
destruct (IH a' Hlen Heq) as [-> ->]. done.
Qed.

Lemma digitsFixed_length k : ∀ y, String.length (digitsFixed k y) = k.
Proof.
induction k as [|k IH]; intros y; cbn [digitsFixed]; [done|].
rewrite string_length_app, IH. cbn [String.length]. lia.
Qed.

Lemma digitsFixed_inj k : ∀ y y',
(y < 10 ^ N.of_nat k)%N → (y' < 10 ^ N.of_nat k)%N →
digitsFixed k y = digitsFixed k y' → y = y'.
Proof.
induction k as [|k IH]; intros y y' Hy Hy' Heq.
- simpl in Hy, Hy'. lia.
- cbn [digitsFixed] in Heq. rewrite Nat2N.inj_succ, N.pow_succ_r' in Hy, Hy'.
  apply string_app_inj in Heq as [Hhigh Hlow]; [|by rewrite !digitsFixed_length].
  injection Hlow as Hlow.
  apply pretty_N_char_inj in Hlow; [|by apply N.mod_lt..].
  apply IH in Hhigh; [| apply N.Div0.div_lt_upper_bound; lia..].
  rewrite (N.div_mod y 10), (N.div_mod y' 10) by done. lia.
Qed.

(** The accumulator of the digit printer is only a suffix. *)
Lemma pretty_N_go_app x : ∀ s, pretty_N_go x s = pretty_N_go x "" +:+ s.
Proof.
induction (N.lt_wf_0 x) as [x _ IH]; intros s.
destruct (decide (x = 0%N)) as [->|Hx]; [by rewrite !pretty_N_go_0|].
rewrite !(pretty_N_go_step x) by lia.
rewrite (IH (x `div` 10)%N) by (apply N.div_lt; lia).
rewrite (IH (x `div` 10)%N ltac:(apply N.div_lt; lia) (String _ "")).
by rewrite string_app_assoc.
Qed.

(** The last [k + 1] digits of a number that has them. *)
Lemma pretty_N_go_last k : ∀ x s,
(10 ^ N.of_nat k ≤ x)%N →
pretty_N_go x s
= pretty_N_go (x `div` 10 ^ N.of_nat (S k))%N
              (digitsFixed (S k) (x `mod` 10 ^ N.of_nat (S k))%N +:+ s).
Proof.
induction k as [|k IH]; intros x s Hx.
- simpl in Hx. rewrite pretty_N_go_step by lia.
  change (10 ^ N.of_nat 1)%N with 10%N. cbn [digitsFixed].
  rewrite string_app_nil_l, string_app_cons, string_app_nil_l.
  by rewrite N.Div0.mod_mod.
- rewrite Nat2N.inj_succ, N.pow_succ_r' in Hx.
  rewrite pretty_N_go_step by lia.
  rewrite (IH (x `div` 10)%N) by (apply N.div_le_lower_bound; lia).
  assert (10 ^ N.of_nat (S (S k)) = 10 * 10 ^ N.of_nat (S k))%N as Hpow
    by (by rewrite (Nat2N.inj_succ (S k)), N.pow_succ_r').
  rewrite Hpow. rewrite N.Div0.div_div. f_equal.
  rewrite (N.Div0.mod_mul_r x 10 (10 ^ N.of_nat (S k))).
  assert ((x `mod` 10 + 10 * ((x `div` 10) `mod` 10 ^ N.of_nat (S k))) `div` 10
          = (x `div` 10) `mod` 10 ^ N.of_nat (S k))%N as Hdiv.
  { rewrite N.add_comm, N.mul_comm, N.div_add_l by lia.
    rewrite (N.div_small (x `mod` 10) 10) by (apply N.mod_lt; lia). lia. }
  assert ((x `mod` 10 + 10 * ((x `div` 10) `mod` 10 ^ N.of_nat (S k))) `mod` 10
          = x `mod` 10)%N as Hmod.
  { rewrite (N.mul_comm 10), N.Div0.mod_add. apply N.Div0.mod_mod. }
  change (digitsFixed (S (S k)) ?y) with
    (digitsFixed (S k) (y `div` 10)%N +:+ String (pretty_N_char (y `mod` 10)%N) "").
  rewrite Hdiv, Hmod. rewrite string_app_assoc. by rewrite string_app_cons, string_app_nil_l.
Qed.

(** A number of at least [k + 1] digits ends in its remainder modulo
    [10 ^ (k + 1)], written on [k + 1] positions. *)
Lemma pretty_ends_in_remainder k x :
(10 ^ N.of_nat k ≤ x)%N →
sliceLast (S k) (pretty x) = digitsFixed (S k) (x `mod` 10 ^ N.of_nat (S k))%N.
Proof.
intros Hx.
assert (0 < 10 ^ N.of_nat k)%N as Hpos by (apply N.neq_0_lt_0, N.pow_nonzero; lia).
unfold pretty, pretty_N. rewrite decide_False by lia.
rewrite (pretty_N_go_last k x "" Hx). rewrite string_app_nil_r.
rewrite pretty_N_go_app. apply sliceLast_app, digitsFixed_length.
Qed.

(** Padding a number below 10000 to four characters writes it on four
    positions; checked on all 10000 numbers. *)
Lemma padStart_four r : (r < 10000)%N → padStart 4 (pretty r) = digitsFixed 4 r.
Proof.
intros Hr.
assert (forallb (λ n, bool_decide (padStart 4 (pretty (N.of_nat n))
                                   = digitsFixed 4 (N.of_nat n)))
                (seq 0 (100 * 100)) = true) as Hall by (vm_compute; reflexivity).
rewrite forallb_forall in Hall.
assert (In (N.to_nat r) (seq 0 (100 * 100))) as Hin by (apply in_seq; lia).
specialize (Hall _ Hin). rewrite N2Nat.id in Hall.
by apply bool_decide_eq_true_1 in Hall.
Qed.

Lemma generateClientId_digits t r :
(100000 ≤ t)%N → (r < 10000)%N →
generateClientId t r = "TT25" +:+ digitsFixed 6 (t `mod` 1000000)%N +:+ digitsFixed 4 r.
Proof.
intros Ht Hr. unfold generateClientId.
rewrite (pretty_ends_in_remainder 5 t) by exact Ht.
by rewrite padStart_four.
Qed.

(** Client ids are 14 characters long and are not unique: once the clock
    shows at least six digits, two calls of [generateClientId] return the
    same id exactly when their timestamps agree modulo 1000 seconds and
    their random numbers are equal.  The id of a submission comes back
    whenever the same random number is drawn a multiple of 1000 s later. *)
Theorem client_ids_repeat_modulo_1000_seconds t t' r r' :
(100000 ≤ t)%N → (100000 ≤ t')%N → (r < 10000)%N → (r' < 10000)%N →
String.length (generateClientId t r) = 14%nat ∧
(generateClientId t r = generateClientId t' r'
 ↔ (t `mod` 1000000 = t' `mod` 1000000)%N ∧ r = r') ∧
generateClientId (t + 1000000) r = generateClientId t r.
Proof.
intros Ht Ht' Hr Hr'.
assert (∀ u u' q q', (100000 ≤ u)%N → (100000 ≤ u')%N → (q < 10000)%N → (q' < 10000)%N →
          (generateClientId u q = generateClientId u' q'
           ↔ (u `mod` 1000000 = u' `mod` 1000000)%N ∧ q = q')) as Hiff.
{ intros u u' q q' Hu Hu' Hq Hq'. rewrite !generateClientId_digits by done. split.
  - intros Heq.
    apply string_app_inj in Heq as [_ Heq]; [|done].
    apply string_app_inj in Heq as [H6 H4]; [|by rewrite !digitsFixed_length].
    split.
    + apply (digitsFixed_inj 6); [by apply N.mod_lt..|done].
    + by apply (digitsFixed_inj 4).
  - by intros [-> ->]. }
split; [|split].
- rewrite generateClientId_digits by done.
  rewrite !string_length_app, !digitsFixed_length. reflexivity.
- by apply Hiff.
- apply Hiff; [lia|done..|]. split; [|done].
  rewrite <- (N.mul_1_l 1000000) at 1. by rewrite N.Div0.mod_add.
Qed.
End Identifiers.

Lemma client_ids_repeat_modulo_1000_seconds_witness :
String.length (generateClientId 1762150000123 42) = 14%nat ∧
(generateClientId 1762150000123 42 = generateClientId 1762151000123 42
 ↔ (1762150000123 `mod` 1000000 = 1762151000123 `mod` 1000000)%N ∧ 42%N = 42%N) ∧
generateClientId (1762150000123 + 1000000) 42 = generateClientId 1762150000123 42.
Proof.
apply (client_ids_repeat_modulo_1000_seconds 1762150000123 1762151000123 42 42);
  vm_compute; congruence.
Defined.

Section OrderIds.
Implicit Types (s a b : string) (x : N).

Lemma pretty_N_char_no_underscore x : Ascii.eqb (pretty_N_char x) "_" = false.
Proof. unfold pretty_N_char. by repeat case_match. Qed.

Lemma underscoreFree_pretty_N_go x : ∀ s,
underscoreFree (pretty_N_go x s) = underscoreFree s.
Proof.
induction (N.lt_wf_0 x) as [x _ IH]; intros s.
destruct (decide (x = 0%N)) as [->|Hx]; [by rewrite pretty_N_go_0|].
rewrite pretty_N_go_step by lia. rewrite IH by (apply N.div_lt; lia).
cbn [underscoreFree]. by rewrite pretty_N_char_no_underscore.
Qed.

Lemma underscoreFree_pretty x : underscoreFree (pretty x) = true.
Proof.
unfold pretty, pretty_N. case_decide; [done|]. by rewrite underscoreFree_pretty_N_go.
Qed.

(** A string is cut in one way only at its first underscore. *)
Lemma split_at_first_underscore a : ∀ a' b b',
underscoreFree a = true → underscoreFree a' = true →
a +:+ String "_" b = a' +:+ String "_" b' → a = a' ∧ b = b'.
Proof.
induction a as [|c a IH]; intros [|c' a'] b b' Ha Ha' Heq.
- rewrite !string_app_nil_l in Heq. by injection Heq as ->.
- rewrite string_app_nil_l, string_app_cons in Heq. injection Heq as <- _.
  cbn [underscoreFree] in Ha'. by rewrite Ascii.eqb_refl in Ha'.
- rewrite string_app_nil_l, string_app_cons in Heq. injection Heq as -> _.
  cbn [underscoreFree] in Ha. by rewrite Ascii.eqb_refl in Ha.
- rewrite !string_app_cons in Heq. injection Heq as -> Heq.
  cbn [underscoreFree] in Ha, Ha'.
  apply andb_prop in Ha as [_ Ha]. apply andb_prop in Ha' as [_ Ha'].
  destruct (IH a' b b' Ha Ha' Heq) as [-> ->]. done.
Qed.

Lemma padStart_three r : (r < 1000)%N → padStart 3 (pretty r) = digitsFixed 3 r.
Proof.
intros Hr.
assert (forallb (λ n, bool_decide (padStart 3 (pretty (N.of_nat n))
                                   = digitsFixed 3 (N.of_nat n)))
                (seq 0 (10 * 100)) = true) as Hall by (vm_compute; reflexivity).
rewrite forallb_forall in Hall.
assert (In (N.to_nat r) (seq 0 (10 * 100))) as Hin by (apply in_seq; lia).
specialize (Hall _ Hin). rewrite N2Nat.id in Hall.
by apply bool_decide_eq_true_1 in Hall.
Qed.

(** Order ids, unlike client ids, tell their inputs apart: two calls of
    [generateOrderId] return the same id only for the same millisecond
    and the same random number. *)
Theorem order_ids_determine_their_inputs t t' r r' :
(r < 1000)%N → (r' < 1000)%N →
generateOrderId t r = generateOrderId t' r' → t = t' ∧ r = r'.
Proof.
intros Hr Hr' Heq. unfold generateOrderId in Heq.
rewrite !padStart_three in Heq by done.
apply string_app_inj in Heq as [_ Heq]; [|done].
apply split_at_first_underscore in Heq as [Ht Hd];
  [|apply underscoreFree_pretty..].
split.
- by apply (inj pretty).
- by apply (digitsFixed_inj 3).
Qed.
End OrderIds.

Lemma order_ids_determine_their_inputs_witness :
1762150000123%N = 1762150000123%N ∧ 7%N = 7%N.
Proof.
apply (order_ids_determine_their_inputs 1762150000123 1762150000123 7 7);
  [reflexivity|reflexivity|reflexivity].
Defined.

(** ** Intake *)

Section Intake.
Implicit Types (fd : FormData) (uploaded : list File) (st : State).

Lemma jsTruthy_fieldOr a b : b ≠ ""%string → fieldOr a b ≠ ""%string.
Proof. intros Hb. destruct a as [[|c s]|]; simpl; done. Qed.

(** The payment object exists exactly when the form carries a non-empty
    [paymentId]; it then repeats that id, and its transaction id and
    order status are never empty: a missing or empty [transactionId]
    falls back to the payment id, a missing or empty [orderStatus] to
    [PAID]. *)
Theorem payment_info_is_keyed_on_payment_id fd :
(extractPaymentInfo fd = None ↔ jsTruthy (fd !! "paymentId"%string) = false) ∧
∀ p, extractPaymentInfo fd = Some p →
  fd !! "paymentId"%string = Some (pf_paymentId p) ∧
  pf_paymentId p ≠ ""%string ∧ pf_transactionId p ≠ ""%string ∧
  pf_orderStatus p ≠ ""%string ∧
  (jsTruthy (fd !! "transactionId"%string) = false → pf_transactionId p = pf_paymentId p) ∧
  (jsTruthy (fd !! "orderStatus"%string) = false → pf_orderStatus p = "PAID"%string) ∧
  pf_orderId p = fd !! "orderId"%string ∧ pf_amount p = fd !! "paymentAmount"%string.
Proof.
unfold extractPaymentInfo.
destruct (fd !! "paymentId"%string) as [[|c s]|] eqn:Hpid; simpl.
- split; [done|]. intros p Hp. discriminate Hp.
- split; [split; discriminate|]. intros p [= <-]. simpl.
  split; [done|]. split; [done|]. split; [by apply jsTruthy_fieldOr|].
  split; [by apply jsTruthy_fieldOr|]. split; [|split; [|done]].
  + by destruct (fd !! "transactionId"%string) as [[|]|].
  + by destruct (fd !! "orderStatus"%string) as [[|]|].
- split; [done|]. intros p Hp. discriminate Hp.
Qed.

Lemma aadharCardFiles_cons uploaded f rest :
aadharCardFiles uploaded = f :: rest →
f ∈ uploaded ∧ String.prefix "aadharCard" (fieldname f) = true.
Proof.
intros H. assert (In f (aadharCardFiles uploaded)) as Hin by (rewrite H; by left).
unfold aadharCardFiles in Hin. apply filter_In in Hin as [Hin Hp].
split; [by apply list_elem_of_In|done].
Qed.

(** The three ways the validation of a submission ends.  A request with
    a required field missing or empty is refused and its uploads are left
    on storage, whether or not an Aadhar card is among them.  A request
    with all fields but no upload whose field name starts with
    [aadharCard] is refused and its uploads are unlinked, those whose
    deletion is rejected excepted.  Any other request goes on, with the
    state untouched and a file list that is not empty. *)
Theorem contact_intake_outcomes fd uploaded st :
(requiredFieldsPresent fd = false →
   contactIntake fd uploaded st = (st, BadRequest "Missing required fields")) ∧
(requiredFieldsPresent fd = true → aadharCardFiles uploaded = [] →
   ∃ st' error,
     contactIntake fd uploaded st = (st', BadRequest error) ∧
     pendingEmailRetries st' = pendingEmailRetries st ∧ timers st' = timers st ∧
     existing (uploads st') =
       existing (uploads st) ∖ (list_to_set (path <$> uploaded) ∖ undeletable (uploads st))) ∧
(∀ st' pi, contactIntake fd uploaded st = (st', Proceed pi) →
   st' = st ∧ pi = extractPaymentInfo fd ∧ requiredFieldsPresent fd = true ∧
   nonEmpty uploaded = true ∧
   ∃ f, f ∈ uploaded ∧ String.prefix "aadharCard" (fieldname f) = true).
Proof.
unfold contactIntake. split; [|split].
- by intros ->.
- intros -> ->. simpl. eexists _, _. split; [done|]. simpl.
  split; [done|]. split; [done|].
  by destruct (unlinkAll_spec uploaded (uploads st)) as [_ ->].
- intros st' pi. destruct (requiredFieldsPresent fd); simpl; [|discriminate].
  destruct (aadharCardFiles uploaded) as [|f rest] eqn:Ha; [discriminate|].
  intros [= <- <-]. split; [done|]. split; [done|]. split; [done|].
  destruct (aadharCardFiles_cons uploaded f rest Ha) as [Hin Hp].
  split; [|by exists f]. destruct uploaded; [by apply elem_of_nil in Hin|done].
Qed.
End Intake.

(** ** The properties above on the sample submission *)

Lemma reachable_stateAfter production acts st :
run production acts (initialState 0 sampleDisk) = Some st → reachable production st.
Proof. apply run_reachable, reachable_boot. Qed.

Lemma firstFailure_reachable : reachable false (stateAfter false firstFailure).
Proof. apply (reachable_stateAfter false firstFailure). vm_compute. reflexivity. Qed.

Lemma firstFailure_entry :
pendingEmailRetries (stateAfter false firstFailure) !! sampleId = Some firstFailureEntry.
Proof. vm_compute. reflexivity. Qed.

Lemma firstFailure_timer :
timers (stateAfter false firstFailure) !! 0%nat = Some (30000, RetryCallback firstRetryCall).
Proof. vm_compute. reflexivity. Qed.

Lemma ledger_entries_are_paid_and_keyed_witness :
clientId firstFailureEntry = sampleId ∧ is_Some (paymentInfo firstFailureEntry) ∧
∃ id, timeoutId firstFailureEntry = Some id ∧
      (id < nextTimerId (stateAfter false firstFailure))%nat.
Proof.
exact (ledger_entries_are_paid_and_keyed false (stateAfter false firstFailure) sampleId
         firstFailureEntry firstFailure_reachable firstFailure_entry).
Defined.

Lemma entry_timer_retries_the_entry_witness :
runCallback false (RetryCallback firstRetryCall)
            (clearTimeout 0 (stateAfter false firstFailure))
= sendEmailsWithRetry_start
    (mkCall (formData firstFailureEntry) (files firstFailureEntry) sampleId
            (paymentInfo firstFailureEntry) (retryCount firstFailureEntry))
    FromTimer (clearTimeout 0 (stateAfter false firstFailure)).
Proof.
exact (entry_timer_retries_the_entry false (stateAfter false firstFailure) sampleId
         firstFailureEntry 0%nat 30000 (RetryCallback firstRetryCall)
         firstFailure_reachable firstFailure_entry eq_refl firstFailure_timer).
Defined.

Lemma nothing_is_scheduled_too_far_witness :
(∀ cid rd, pendingEmailRetries (stateAfter false firstFailure) !! cid = Some rd →
           createdAt rd ≤ Date_now (stateAfter false firstFailure)) ∧
(∀ id due c, timers (stateAfter false firstFailure) !! id = Some (due, RetryCallback c) →
             due ≤ Date_now (stateAfter false firstFailure) + 600000) ∧
(∀ id due fs cid,
   timers (stateAfter false firstFailure) !! id = Some (due, CleanupCheckCallback fs cid) →
   due ≤ Date_now (stateAfter false firstFailure) + 30 * 60 * 1000).
Proof.
exact (nothing_is_scheduled_too_far false (stateAfter false firstFailure)
         firstFailure_reachable).
Defined.

Lemma entry_only_after_logged_failure_witness :
∃ delay clamped,
  EvRetryScheduled sampleId (retryCount firstFailureEntry) delay clamped
  ∈ console (stateAfter false firstFailure).
Proof.
exact (entry_only_after_logged_failure false (stateAfter false firstFailure) sampleId
         firstFailureEntry firstFailure_reachable firstFailure_entry).
Defined.

Lemma email_retries_report_witness :
totalPendingRetries (stateAfter false firstFailure)
= size (pendingEmailRetries (stateAfter false firstFailure)) ∧
NoDup (r_clientId <$> emailRetries (stateAfter false firstFailure)) ∧
∀ r, r ∈ emailRetries (stateAfter false firstFailure) →
  (∃ rd, pendingEmailRetries (stateAfter false firstFailure) !! r_clientId r = Some rd ∧
         r_retryCount r = retryCount rd ∧
         r_ageMinutes r = ageMinutes (Date_now (stateAfter false firstFailure)) (createdAt rd)) ∧
  1 ≤ r_retryCount r ≤ 5 ∧ 0 ≤ r_ageMinutes r ∧ is_Some (r_paymentId r).
Proof.
exact (email_retries_report false (stateAfter false firstFailure) firstFailure_reachable).
Defined.

Lemma unpaid_failure_disposes_uploads_witness :
∃ st',
  step false (SendDone 0 transportDown) (stateAfter false unpaidSubmitted) = Some st' ∧
  pendingEmailRetries st' = pendingEmailRetries (stateAfter false unpaidSubmitted) ∧
  timers st' = timers (stateAfter false unpaidSubmitted) ∧
  console st' = console (stateAfter false unpaidSubmitted) ∧
  inflight st' = delete 0%nat (inflight (stateAfter false unpaidSubmitted)) ∧
  existing (uploads st') =
    existing (uploads (stateAfter false unpaidSubmitted))
    ∖ (list_to_set (path <$> [aadhar])
       ∖ undeletable (uploads (stateAfter false unpaidSubmitted))).
Proof.
exact (unpaid_failure_disposes_uploads false 0%nat sampleForm [aadhar] sampleId 0
         AdminMail "ECONNREFUSED" (stateAfter false unpaidSubmitted) eq_refl).
Defined.

Lemma paid_failure_keeps_uploads_witness :
∃ st' d,
  step false (SendDone 0 transportDown) (stateAfter false paidSubmitted) = Some st' ∧
  retryDelays EMAIL_RETRY_CONFIG !! Z.to_nat 0 = Some d ∧
  uploads st' = uploads (stateAfter false paidSubmitted) ∧
  console st' = EvRetryScheduled sampleId (0 + 1) d false
                :: console (stateAfter false paidSubmitted) ∧
  timers st' =
    <[nextTimerId (stateAfter false paidSubmitted) :=
        (Date_now (stateAfter false paidSubmitted) + d,
         RetryCallback (mkCall sampleForm [aadhar] sampleId (Some samplePayment) (0 + 1)))]>
      (timers (stateAfter false paidSubmitted)) ∧
  inflight st' = delete 0%nat (inflight (stateAfter false paidSubmitted)).
Proof.
apply (paid_failure_keeps_uploads false 0%nat
         (mkCall sampleForm [aadhar] sampleId (Some samplePayment) 0) FromSubmit
         AdminMail "ECONNREFUSED" (stateAfter false paidSubmitted)).
- reflexivity.
- by eexists.
- simpl. lia.
Defined.

Lemma manual_retry_spends_budget_witness :
∃ st' id,
  run false [ManualRetry sampleId; SendDone 0 transportDown] (stateAfter false firstFailure)
  = Some st' ∧
  timeoutId firstFailureEntry = Some id ∧
  if bool_decide (retryCount firstFailureEntry < 5) then
    ∃ d, retryDelays EMAIL_RETRY_CONFIG !! Z.to_nat (retryCount firstFailureEntry) = Some d ∧
      pendingEmailRetries st' !! sampleId =
        Some (mkRetryData (formData firstFailureEntry) (files firstFailureEntry) sampleId
                          (paymentInfo firstFailureEntry) (retryCount firstFailureEntry + 1)
                          (Date_now (stateAfter false firstFailure))
                          (Some (nextTimerId (stateAfter false firstFailure)))) ∧
      timers st' =
        <[nextTimerId (stateAfter false firstFailure) :=
            (Date_now (stateAfter false firstFailure) + d,
             RetryCallback (mkCall (formData firstFailureEntry) (files firstFailureEntry)
                                   sampleId (paymentInfo firstFailureEntry)
                                   (retryCount firstFailureEntry + 1)))]>
          (delete id (timers (stateAfter false firstFailure)))
  else
    pendingEmailRetries st' = pendingEmailRetries (stateAfter false firstFailure) ∧
    timers st' = delete id (timers (stateAfter false firstFailure)).
Proof.
apply (manual_retry_spends_budget false sampleId firstFailureEntry AdminMail "ECONNREFUSED"
         (stateAfter false firstFailure) firstFailure_reachable).
- discriminate.
- exact firstFailure_entry.
Defined.

Lemma retry_success_leaves_ledger_and_schedules_witness :
∃ st',
  run false [Tick (30000 - Date_now (stateAfter false firstFailure)); TimerFire 0;
             SendDone 0 Sent] (stateAfter false firstFailure) = Some st' ∧
  pendingEmailRetries st' = delete sampleId (pendingEmailRetries (stateAfter false firstFailure)) ∧
  timers st' =
    (if nonEmpty (files firstFailureEntry)
     then <[nextTimerId (stateAfter false firstFailure) :=
              (30000 + cleanupDelay false,
               CleanupCheckCallback (files firstFailureEntry) sampleId)]>
            (delete 0%nat (timers (stateAfter false firstFailure)))
     else delete 0%nat (timers (stateAfter false firstFailure))) ∧
  console st' = EvAttempt sampleId (retryCount firstFailureEntry) 30000
                :: console (stateAfter false firstFailure) ∧
  uploads st' = uploads (stateAfter false firstFailure) ∧
  inflight st' = inflight (stateAfter false firstFailure).
Proof.
apply (retry_success_leaves_ledger_and_schedules false sampleId firstFailureEntry 0%nat 30000
         (RetryCallback firstRetryCall) (stateAfter false firstFailure)
         firstFailure_reachable firstFailure_entry eq_refl firstFailure_timer).
vm_compute. discriminate.
Defined.

Lemma first_try_success_schedules_one_cleanup_witness :
∃ st',
  run true [Submit sampleForm [aadhar] sampleId None; SendDone 0 Sent]
      (initialState 0 sampleDisk) = Some st' ∧
  pendingEmailRetries st' = pendingEmailRetries (initialState 0 sampleDisk) ∧
  timers st' =
    (if nonEmpty [aadhar]
     then <[nextTimerId (initialState 0 sampleDisk) :=
              (Date_now (initialState 0 sampleDisk) + cleanupDelay true,
               CleanupCheckCallback [aadhar] sampleId)]> (timers (initialState 0 sampleDisk))
     else timers (initialState 0 sampleDisk)) ∧
  console st' = EvAttempt sampleId 0 (Date_now (initialState 0 sampleDisk))
                :: console (initialState 0 sampleDisk) ∧
  uploads st' = uploads (initialState 0 sampleDisk) ∧
  inflight st' = inflight (initialState 0 sampleDisk).
Proof.
exact (first_try_success_schedules_one_cleanup true sampleForm [aadhar] sampleId None
         (initialState 0 sampleDisk) eq_refl).
Defined.

Lemma timers_bounded_by_requests_witness :
(armedRetryCount sampleId (stateAfter false overlappingManualRetries)
 + inflightFor sampleId (stateAfter false overlappingManualRetries)
 ≤ requestsFor sampleId overlappingManualRetries)%nat.
Proof.
apply (timers_bounded_by_requests false sampleId overlappingManualRetries 0 sampleDisk
         (stateAfter false overlappingManualRetries)).
vm_compute. reflexivity.
Defined.

(** ** Only attachments are ever deleted *)

Section Deletions.
Variable production : bool.
Implicit Types (st : State) (c : Call) (fs : list File) (P : File → Prop).

Lemma touchesOnly_refl P st : touchesOnly P st st.
Proof. constructor; auto. intros p Hin Hnot. done. Qed.

Lemma touchesOnly_trans P st st1 st2 :
touchesOnly P st st1 → touchesOnly P st1 st2 → touchesOnly P st st2.
Proof.
intros [L1 T1 I1 S1 D1] [L2 T2 I2 S2 D2]. constructor.
- intros cid rd H. destruct (L2 cid rd H) as [H'|H']; [by apply L1|by right].
- intros id due cb H. destruct (T2 id due cb H) as [H'|H']; [by apply T1|by right].
- intros c o H. destruct (I2 c o H) as [H'|H']; [by apply I1|by right].
- etrans; [exact S2|exact S1].
- intros p Hin Hnot. destruct (decide (p ∈ existing (uploads st1))); [by apply D2|by apply D1].
Qed.

Lemma touchesOnly_mono P Q st st' :
(∀ f, P f → Q f) → touchesOnly P st st' → touchesOnly Q st st'.
Proof.
intros HPQ [L T I S D]. constructor; [| | |done|].
- intros cid rd H. destruct (L cid rd H) as [H'|H']; [by left|right; auto].
- intros id due cb H. destruct (T id due cb H) as [H'|H']; [by left|right; auto].
- intros c o H. destruct (I c o H) as [H'|H']; [by left|right; auto].
- intros p Hin Hnot. destruct (D p Hin Hnot) as (f & Hf & Hp). exists f. auto.
Qed.

(** A turn that only drops entries, timers or suspended calls. *)
Lemma touchesOnly_shrink P st st' :
(∀ cid rd, pendingEmailRetries st' !! cid = Some rd → pendingEmailRetries st !! cid = Some rd) →
(∀ id x, timers st' !! id = Some x → timers st !! id = Some x) →
(∀ x, x ∈ inflight st' → x ∈ inflight st) →
uploads st' = uploads st →
touchesOnly P st st'.
Proof.
intros L T I U. constructor; try (intros; left; auto; done).
- by rewrite U.
- intros p Hin Hnot. by rewrite U in Hnot.
Qed.

Lemma deleted_by_cleanupFiles fs cid (s : Storage) p :
p ∈ existing s → p ∉ existing (cleanupFiles fs cid s).1 → ∃ f, f ∈ fs ∧ path f = p.
Proof.
intros Hin Hnot. unfold cleanupFiles in Hnot.
destruct (cleanupFiles_loop_spec fs s (mkCounts 0 0)) as (s' & c' & Hrun & _ & He & _).
rewrite Hrun in Hnot. simpl in Hnot. rewrite He in Hnot.
destruct (decide (p ∈ (list_to_set (path <$> fs) : gset string))) as [Hp|Hp].
- apply elem_of_list_to_set, list_elem_of_fmap in Hp as (f & -> & Hf). by exists f.
- exfalso. apply Hnot. apply elem_of_difference. split; [done|].
  rewrite elem_of_difference. by intros [? _].
Qed.

Lemma existing_after_cleanupFiles fs cid (s : Storage) :
existing (cleanupFiles fs cid s).1 ⊆ existing s.
Proof.
unfold cleanupFiles.
destruct (cleanupFiles_loop_spec fs s (mkCounts 0 0)) as (s' & c' & Hrun & _ & He & _).
rewrite Hrun. simpl. rewrite He. apply subseteq_difference_l. done.
Qed.

Lemma touchesOnly_call_cleanupFiles P fs cid st :
(∀ f, f ∈ fs → P f) → touchesOnly P st (call_cleanupFiles fs cid st).
Proof.
intros HP. destruct (call_cleanupFiles_fields fs cid st) as (_ & _ & Hu & Hl & Ht & _ & Hi & _).
constructor; rewrite ?Hl, ?Ht, ?Hi, ?Hu; auto.
- apply existing_after_cleanupFiles.
- intros p Hin Hnot. destruct (deleted_by_cleanupFiles fs cid _ p Hin Hnot) as (f & Hf & Hp).
  exists f. auto.
Qed.

Lemma touchesOnly_unlinkAll P fs st :
(∀ f, f ∈ fs → P f) → touchesOnly P st (set_uploads (unlinkAll fs (uploads st)) st).
Proof.
intros HP. destruct (unlinkAll_spec fs (uploads st)) as [_ He].
constructor; simpl; auto.
- rewrite He. apply subseteq_difference_l. done.
- intros p Hin Hnot. rewrite He in Hnot.
  destruct (decide (p ∈ (list_to_set (path <$> fs) : gset string))) as [Hp|Hp].
  + apply elem_of_list_to_set, list_elem_of_fmap in Hp as (f & -> & Hf). exists f. auto.
  + exfalso. apply Hnot. apply elem_of_difference. split; [done|].
    rewrite elem_of_difference. by intros [? _].
Qed.

Lemma touchesOnly_setTimeout P cb delay st :
(∀ f, f ∈ callbackFiles cb → P f) → touchesOnly P st (setTimeout cb delay st).2.
Proof.
intros HP. constructor; simpl; auto.
- intros id due cb'. destruct (decide (nextTimerId st = id)) as [<-|Hne].
  + rewrite lookup_insert_eq. intros [= _ <-]. by right.
  + rewrite lookup_insert_ne by done. by left.
- intros p Hin Hnot. done.
Qed.

Lemma touchesOnly_clearTimeoutOf P rd st : touchesOnly P st (clearTimeoutOf rd st).
Proof.
unfold clearTimeoutOf. destruct (timeoutId rd) as [id|]; [|apply touchesOnly_refl].
apply touchesOnly_shrink; simpl; auto.
intros id' x. rewrite lookup_delete_Some. by intros [_ ?].
Qed.

Lemma touchesOnly_start P c o st :
(∀ f, f ∈ c_files c → P f) → touchesOnly P st (sendEmailsWithRetry_start c o st).
Proof.
intros HP. constructor; simpl; auto.
- intros c' o' [[= -> ->]|Hin]%elem_of_cons; [by right|by left].
- intros p Hin Hnot. done.
Qed.

Lemma touchesOnly_settle P c o st :
(∀ f, f ∈ c_files c → P f) →
touchesOnly P st (sendEmailsWithRetry_settle production c o st).1.
Proof.
intros HP. unfold sendEmailsWithRetry_settle. destruct o as [|stage message].
- destruct (pendingEmailRetries st !! c_clientId c) as [rd|]; [|apply touchesOnly_refl].
  cbn [fst].
  eapply touchesOnly_trans; [apply (touchesOnly_clearTimeoutOf P rd)|].
  eapply touchesOnly_trans.
  { apply (touchesOnly_shrink P _
             (set_ledger (delete (c_clientId c) (pendingEmailRetries (clearTimeoutOf rd st)))
                         (clearTimeoutOf rd st))); simpl; auto.
    intros k rd'. rewrite lookup_delete_Some. by intros [_ ?]. }
  destruct (nonEmpty (c_files c)); [|apply touchesOnly_refl].
  by apply touchesOnly_setTimeout.
- case_bool_decide as Hbudget.
  + destruct (retryDelayLookup EMAIL_RETRY_CONFIG (c_retryCount c)) as [d clamped].
    cbn [fst]. constructor; simpl; auto.
    * intros cid rd. destruct (decide (c_clientId c = cid)) as [->|Hne].
      -- rewrite lookup_insert_eq. intros [= <-]. by right.
      -- rewrite lookup_insert_ne by done. by left.
    * intros id due cb. destruct (decide (nextTimerId st = id)) as [<-|Hne].
      -- rewrite lookup_insert_eq. intros [= _ <-]. by right.
      -- rewrite lookup_insert_ne by done. by left.
    * intros p Hin Hnot. done.
  + cbn [fst].
    destruct (bool_decide (is_Some (c_paymentInfo c)) && nonEmpty (c_files c));
      [|apply touchesOnly_refl].
    by apply touchesOnly_call_cleanupFiles.
Qed.

Lemma touchesOnly_continuation P o c r st :
(∀ f, f ∈ c_files c → P f) → touchesOnly P st (continuation production o c r st).
Proof.
intros HP. destruct o; simpl; try apply touchesOnly_refl.
unfold submitContinuation. destruct r.
- destruct (nonEmpty (c_files c)); [|apply touchesOnly_refl].
  by apply touchesOnly_setTimeout.
- destruct (bool_decide (is_Some (c_paymentInfo c))); [apply touchesOnly_refl|].
  by apply touchesOnly_unlinkAll.
- by apply touchesOnly_unlinkAll.
Qed.

Lemma touchesOnly_purgeEntry P st k :
(∀ cid rd, pendingEmailRetries st !! cid = Some rd → ∀ f, f ∈ files rd → P f) →
touchesOnly P st (purgeEntry st k).
Proof.
intros HP. unfold purgeEntry.
destruct (pendingEmailRetries st !! k) as [rd|] eqn:Hrd; [|apply touchesOnly_refl].
eapply touchesOnly_trans; [apply (touchesOnly_clearTimeoutOf P rd)|].
eapply touchesOnly_trans.
- instantiate (1 := if nonEmpty (files rd)
                    then call_cleanupFiles (files rd) k (clearTimeoutOf rd st)
                    else clearTimeoutOf rd st).
  destruct (nonEmpty (files rd)); [|apply touchesOnly_refl].
  apply touchesOnly_call_cleanupFiles. by apply (HP k rd).
- apply touchesOnly_shrink; simpl; auto.
  intros k' rd'. rewrite lookup_delete_Some. by intros [_ ?].
Qed.

Lemma touchesOnly_purge_all P l : ∀ st,
(∀ cid rd, pendingEmailRetries st !! cid = Some rd → ∀ f, f ∈ files rd → P f) →
touchesOnly P st (foldl purgeEntry st l).
Proof.
induction l as [|k l IH]; intros st HP; cbn [foldl]; [apply touchesOnly_refl|].
eapply touchesOnly_trans; [by apply touchesOnly_purgeEntry|].
apply IH. intros cid rd. rewrite purgeEntry_ledger, lookup_delete_Some.
intros [_ Hrd]. by apply (HP cid rd).
Qed.

(** One turn: what the state holds or has deleted afterwards was held
    before or came with the request. *)
Lemma touchesOnly_step a st st' :
step production a st = Some st' →
touchesOnly (λ f, holdsFile st f ∨ f ∈ actionFiles a) st st'.
Proof.
intros Hstep. destruct a as [dt|fd fs cid pi|i o|id| |cid|fs cid]; simpl in Hstep.
- case_bool_decide; [|done]. injection Hstep as <-. by apply touchesOnly_shrink.
- injection Hstep as <-. apply touchesOnly_start. intros f Hf. by right.
- destruct (inflight st !! i) as [[c origin]|] eqn:Hi; [|done].
  destruct (sendEmailsWithRetry_settle production c o
              (set_inflight (delete i (inflight st)) st)) as [st2 r] eqn:Hsettle.
  injection Hstep as <-.
  assert (∀ f, f ∈ c_files c → holdsFile st f ∨ f ∈ actionFiles (SendDone i o)) as Hheld.
  { intros f Hf. left. right. right. exists c, origin. split; [|done].
    apply list_elem_of_lookup. by exists i. }
  eapply touchesOnly_trans.
  { apply (touchesOnly_shrink _ st (set_inflight (delete i (inflight st)) st)); simpl; auto.
    intros x. apply list_elem_of_delete_inv. }
  eapply touchesOnly_trans; [|by apply touchesOnly_continuation].
  change st2 with (st2, r).1. rewrite <- Hsettle. by apply touchesOnly_settle.
- destruct (timers st !! id) as [[due cb]|] eqn:Hid; [|done].
  case_bool_decide; [|done]. injection Hstep as <-.
  assert (∀ f, f ∈ callbackFiles cb → holdsFile st f ∨ f ∈ actionFiles (TimerFire id)) as Hheld.
  { intros f Hf. left. right. left. by exists id, due, cb. }
  eapply touchesOnly_trans.
  { apply (touchesOnly_shrink _ st (clearTimeout id st)); simpl; auto.
    intros id' x. rewrite lookup_delete_Some. by intros [_ ?]. }
  destruct cb as [c|fs cid|fs cid]; simpl in *.
  + by apply touchesOnly_start.
  + unfold cleanupCheck. case_bool_decide.
    * by apply touchesOnly_setTimeout.
    * by apply touchesOnly_call_cleanupFiles.
  + by apply touchesOnly_call_cleanupFiles.
- injection Hstep as <-. apply touchesOnly_purge_all.
  intros cid rd Hrd f Hf. left. left. by exists cid, rd.
- injection Hstep as <-. unfold manualRetry.
  case_bool_decide; [apply touchesOnly_refl|].
  destruct (pendingEmailRetries st !! cid) as [rd|] eqn:Hrd; [|apply touchesOnly_refl].
  eapply touchesOnly_trans; [apply touchesOnly_clearTimeoutOf|].
  apply touchesOnly_start. simpl. intros f Hf. left. left. by exists cid, rd.
- injection Hstep as <-. unfold testCleanup.
  destruct production; [apply touchesOnly_refl|].
  destruct (nonEmpty fs); [|apply touchesOnly_refl].
  apply touchesOnly_setTimeout. intros f Hf. by right.
Qed.

Lemma holdsFile_after P st st' f :
touchesOnly P st st' → holdsFile st' f → holdsFile st f ∨ P f.
Proof.
intros [L T I _ _] [(cid & rd & Hrd & Hf)|[(id & due & cb & Hcb & Hf)|(c & o & Hc & Hf)]].
- destruct (L cid rd Hrd) as [H|H]; [|by right; apply H]. left. left. by exists cid, rd.
- destruct (T id due cb Hcb) as [H|H]; [|by right; apply H].
  left. right. left. by exists id, due, cb.
- destruct (I c o Hc) as [H|H]; [|by right; apply H]. left. right. right. by exists c, o.
Qed.

Lemma touchesOnly_run acts : ∀ st st',
run production acts st = Some st' →
touchesOnly (λ f, holdsFile st f ∨ ∃ a, a ∈ acts ∧ f ∈ actionFiles a) st st'.
Proof.
induction acts as [|a acts IH]; intros st st' Hrun; simpl in Hrun.
- injection Hrun as <-. apply touchesOnly_refl.
- destruct (step production a st) as [st1|] eqn:Hstep; [|done].
  pose proof (touchesOnly_step a st st1 Hstep) as H1.
  eapply touchesOnly_trans.
  + eapply touchesOnly_mono; [|exact H1]. intros f [Hf|Hf]; [by left|].
    right. exists a. split; [by left|done].
  + eapply touchesOnly_mono; [|exact (IH st1 st' Hrun)].
    intros f [Hf|(a' & Ha' & Hf)].
    * destruct (holdsFile_after _ st st1 f H1 Hf) as [H|[H|H]]; [by left|by left|].
      right. exists a. split; [by left|done].
    * right. exists a'. split; [by right|done].
Qed.

(** Whatever the schedule, the coordinator creates no file and deletes
    nothing but attachments it was handed: a path that was on storage at
    boot and is gone later is the path of a file that came with a
    submission or with a test-cleanup request of the schedule. *)
Theorem only_handed_over_files_are_deleted acts boot disk st :
run production acts (initialState boot disk) = Some st →
existing (uploads st) ⊆ existing disk ∧
∀ p, p ∈ existing disk → p ∉ existing (uploads st) →
     ∃ a f, a ∈ acts ∧ f ∈ actionFiles a ∧ path f = p.
Proof.
intros Hrun. destruct (touchesOnly_run acts _ _ Hrun) as [_ _ _ S D].
split; [exact S|]. intros p Hin Hnot.
destruct (D p Hin Hnot) as (f & [Hheld|(a & Ha & Hf)] & Hp).
- exfalso. destruct Hheld as [(cid & rd & Hrd & _)|[(id & due & cb & Hcb & _)|(c & o & Hc & _)]].
  + simpl in Hrd. by rewrite lookup_empty in Hrd.
  + simpl in Hcb. by rewrite lookup_empty in Hcb.
  + simpl in Hc. by apply elem_of_nil in Hc.
- by exists a, f.
Qed.
End Deletions.

Lemma only_handed_over_files_are_deleted_witness :
existing (uploads (stateAfter false transportStaysDown)) ⊆ existing sampleDisk ∧
∀ p, p ∈ existing sampleDisk → p ∉ existing (uploads (stateAfter false transportStaysDown)) →
     ∃ a f, a ∈ transportStaysDown ∧ f ∈ actionFiles a ∧ path f = p.
Proof.
apply (only_handed_over_files_are_deleted false transportStaysDown 0 sampleDisk
         (stateAfter false transportStaysDown)).
vm_compute. reflexivity.
Defined.
